(** * Shop page of the farm-to-table storefront: fetch, filter and sort

    A shallow embedding of [Shop] in [client/src/pages/user/Cart.js]: the
    component state the product grid is derived from ([products],
    [filteredProducts], [loading], [sortOption], [filterOption]), the
    effect that fetches the catalogue, the effect that re-derives
    [filteredProducts] from [products], [filterOption] and [sortOption],
    and the handlers that change the filter and the sort.

    JavaScript arrays are mutable objects and the page passes references
    to them around, so arrays live in a heap and the component state holds
    their locations.  Code that can throw runs in a state-and-exception
    monad over that heap, the console and the component state.

    Products are plain objects, finite maps from property names to
    primitive values, compared by the language's relational comparison:
    a missing field reads as [undefined] and compares false with
    everything.  Strings are sequences of 8-bit code units read as
    Latin-1, finite numbers are the rationals they denote. *)

From Stdlib Require Import QArith Ascii String Sorted.
From stdpp Require Import base strings list gmap sorting.

Close Scope Q_scope.
Local Open Scope Z_scope.
Local Open Scope string_scope.
Local Open Scope list_scope.

(** ** JavaScript values held by the fields of a product *)

(** A Number: a finite double is the rational it denotes (both zeros are
    [Finite 0]; [<] and [>] do not tell them apart). *)
Inductive number :=
| NaN
| NegInfinity
| Finite (q : Q)
| PosInfinity.

(** The primitive values a field of a parsed JSON record holds;
    [VUndefined] is what reading an absent property gives.  Nested arrays
    and objects are not modelled. *)
Inductive value :=
| VUndefined
| VNull
| VBoolean (b : bool)
| VNumber (n : number)
| VString (s : string).

(** A product is a plain object: a finite map from property names to
    values. *)
Abbreviation object := (gmap string value).

(** [o[key]] *)
Definition get (o : object) (key : string) : value :=
  default VUndefined (o !! key).

(** Number::lessThan: [None] is the specification's [undefined]. *)
Definition Number_lessThan (x y : number) : option bool :=
  match x, y with
  | NaN, _ | _, NaN => None
  | Finite p, Finite q => Some (negb (Qle_bool q p))
  | PosInfinity, _ => Some false
  | _, PosInfinity => Some true
  | _, NegInfinity => Some false
  | NegInfinity, _ => Some true
  end.

(** [String.prototype.toLowerCase] on strings of 8-bit code units read as
    Latin-1: A-Z, and the accented capitals U+00C0-U+00DE except the
    multiplication sign U+00D7, move up by 32. *)
Definition toLowerCase_unit (c : ascii) : ascii :=
  let n := N_of_ascii c in
  if ((65 <=? n) && (n <=? 90) ||
      (192 <=? n) && (n <=? 222) && negb (n =? 215))%N
  then ascii_of_N (n + 32) else c.

Fixpoint toLowerCase (s : string) : string :=
  match s with
  | EmptyString => EmptyString
  | String c s' => String (toLowerCase_unit c) (toLowerCase s')
  end.

(** [s.startsWith(t)] *)
Fixpoint startsWith (s t : string) {struct t} : bool :=
  match t, s with
  | EmptyString, _ => true
  | String _ _, EmptyString => false
  | String d t', String c s' => bool_decide (c = d) && startsWith s' t'
  end.

(** [s.includes(t)]: [t] occurs in [s] at some position. *)
Fixpoint includes (s t : string) : bool :=
  startsWith s t ||
  match s with
  | EmptyString => false
  | String _ s' => includes s' t
  end.

(** ** Arrays, the console and the component state *)

(** Arrays are heap objects named by their location; the heap is the list
    of all arrays allocated so far, the newest last. *)
Abbreviation loc := nat (only parsing).

Inductive exn :=
| TypeError (msg : string)
| FetchRejected (reason : string)
| JsonRejected (reason : string).

Inductive console_arg :=
| AString (s : string)
| AException (e : exn)
| AArray (l : loc).

Inductive console_entry :=
| ConsoleLog (args : list console_arg)
| ConsoleError (args : list console_arg).

(** [sortOption] is [useState()], later [{ [key]: 1 }] or [{ [key]: -1 }]
    from [handleSort], or [null] from [handleReset]. *)
Inductive SortOption :=
| SortUndefined
| SortNull
| SortObject (key : string) (order : Z).

(** The state of [Shop] that the two effects and the filter and sort
    handlers read or write (the popup's three fields are left out).
    [filterOption] maps a field name to the text typed for it. *)
Record ShopState := mkShop {
  products : loc;
  filteredProducts : loc;
  loading : bool;
  sortOption : SortOption;
  filterOption : gmap string string;
  activeSort : option (string * string);
  filterRef_value : string
}.

Record world := mkWorld {
  heap : list (list object);
  console : list console_entry;
  shop : ShopState
}.

(** The first render: [useState([])] twice gives two distinct empty
    arrays, [useState(true)] the loading flag, [useState({})] the filter. *)
Definition initialWorld : world :=
  {| heap := [ []; [] ];
     console := [];
     shop := {| products := 0%nat; filteredProducts := 1%nat; loading := true;
                sortOption := SortUndefined; filterOption := ∅;
                activeSort := None; filterRef_value := "" |} |}.

(** Computations that read and write the world and may throw. *)
Definition M (A : Type) : Type := world -> (exn + A) * world.

#[global] Instance M_ret : MRet M := fun A a w => (inr a, w).

#[global] Instance M_bind : MBind M := fun A B k m w =>
  match m w with
  | (inl e, w') => (inl e, w')
  | (inr a, w') => k a w'
  end.

Definition throw {A} (e : exn) : M A := fun w => (inl e, w).

Definition lift {A} (r : exn + A) : M A := fun w => (r, w).

(** [try { body } catch (error) { handler }] *)
Definition try_catch {A} (body : M A) (handler : exn -> M A) : M A :=
  fun w =>
    match body w with
    | (inl e, w') => handler e w'
    | (inr a, w') => (inr a, w')
    end.

(** [try { body } finally { final }] *)
Definition try_finally {A} (body : M A) (final : M unit) : M A :=
  fun w =>
    let '(r, w') := body w in
    match final w' with
    | (inl e, w'') => (inl e, w'')
    | (inr _, w'') => (r, w'')
    end.

(** The component state as the running closure sees it, and the setters
    of [useState]. *)
Definition getShop : M ShopState := fun w => (inr (shop w), w).

Definition modifyShop (f : ShopState -> ShopState) : M unit :=
  fun w => (inr tt, {| heap := heap w; console := console w; shop := f (shop w) |}).

Definition setProducts (data : loc) : M unit :=
  modifyShop (fun s => mkShop data (filteredProducts s) (loading s) (sortOption s)
                         (filterOption s) (activeSort s) (filterRef_value s)).

Definition setFilteredProducts (data : loc) : M unit :=
  modifyShop (fun s => mkShop (products s) data (loading s) (sortOption s)
                         (filterOption s) (activeSort s) (filterRef_value s)).

Definition setLoading (b : bool) : M unit :=
  modifyShop (fun s => mkShop (products s) (filteredProducts s) b (sortOption s)
                         (filterOption s) (activeSort s) (filterRef_value s)).

Definition setSortOption (o : SortOption) : M unit :=
  modifyShop (fun s => mkShop (products s) (filteredProducts s) (loading s) o
                         (filterOption s) (activeSort s) (filterRef_value s)).

Definition setFilterOption (f : gmap string string -> gmap string string) : M unit :=
  modifyShop (fun s => mkShop (products s) (filteredProducts s) (loading s) (sortOption s)
                         (f (filterOption s)) (activeSort s) (filterRef_value s)).

Definition setActiveSort (a : option (string * string)) : M unit :=
  modifyShop (fun s => mkShop (products s) (filteredProducts s) (loading s) (sortOption s)
                         (filterOption s) a (filterRef_value s)).

Definition setFilterRefValue (v : string) : M unit :=
  modifyShop (fun s => mkShop (products s) (filteredProducts s) (loading s) (sortOption s)
                         (filterOption s) (activeSort s) v).

Definition console_log (args : list console_arg) : M unit :=
  fun w => (inr tt, {| heap := heap w; console := console w ++ [ConsoleLog args];
                       shop := shop w |}).

Definition console_error (args : list console_arg) : M unit :=
  fun w => (inr tt, {| heap := heap w; console := console w ++ [ConsoleError args];
                       shop := shop w |}).

(** A new array with the given elements. *)
Definition alloc (elements : list object) : M loc :=
  fun w => (inr (length (heap w)),
            {| heap := heap w ++ [elements]; console := console w; shop := shop w |}).

Definition read (l : loc) : M (list object) :=
  fun w =>
    match heap w !! l with
    | Some elements => (inr elements, w)
    | None => (inl (TypeError "not an array"), w)
    end.

Definition write (l : loc) (elements : list object) : M unit :=
  fun w => (inr tt, {| heap := <[l := elements]> (heap w); console := console w;
                       shop := shop w |}).

(** [[...arr]] *)
Definition spread (arr : loc) : M loc :=
  elements ← read arr; alloc elements.

(** The elements a callback keeps, in order; the first exception of the
    callback ends the traversal. *)
Fixpoint keep (callback : object -> exn + bool) (elements : list object)
  : exn + list object :=
  match elements with
  | [] => inr []
  | x :: rest =>
      match callback x with
      | inl e => inl e
      | inr b =>
          match keep callback rest with
          | inl e => inl e
          | inr kept => inr (if b then x :: kept else kept)
          end
      end
  end.

(** [arr.filter(callback)]: a new array. *)
Definition Array_filter (callback : object -> exn + bool) (arr : loc) : M loc :=
  elements ← read arr;
  kept ← lift (keep callback elements);
  alloc kept.

(** [Array.prototype.sort] belongs to the runtime.  It is modelled as the
    insertion sort engines run on short arrays: each element in turn goes
    into the sorted prefix in front of the first element it compares
    below ([comparefn(x, y) < 0]). *)
Fixpoint sort_insert {A} (comparefn : A -> A -> Z) (x : A) (sorted : list A) : list A :=
  match sorted with
  | [] => [x]
  | y :: rest =>
      if bool_decide (comparefn x y < 0) then x :: y :: rest
      else y :: sort_insert comparefn x rest
  end.

Definition sort_elements {A} (comparefn : A -> A -> Z) (elements : list A) : list A :=
  foldl (fun sorted x => sort_insert comparefn x sorted) [] elements.

(** [arr.sort(comparefn)]: in place. *)
Definition Array_sort (comparefn : object -> object -> Z) (arr : loc) : M unit :=
  elements ← read arr;
  write arr (sort_elements comparefn elements).

(** ** Fetching the catalogue (Cart.js, lines 121-157) *)

Record Response := mkResponse {
  ok : bool;
  statusText : string;
  body : option (list object)   (* what [response.json()] parses, if it parses *)
}.

(** What the network does with the request. *)
Inductive network :=
| Rejects (reason : string)
| Resolves (response : Response).

(** Truthiness of a value that is a string when it is there, as the
    context's [token] and [filterOption.name] are: a missing value and the
    empty string are falsy. *)
Definition truthy (s : option string) : bool :=
  match s with
  | None => false
  | Some s => negb (bool_decide (s = ""))
  end.

Definition fetch (net : network) : M Response :=
  match net with
  | Rejects reason => throw (FetchRejected reason)
  | Resolves response => mret response
  end.

Definition json (response : Response) : M loc :=
  match body response with
  | None => throw (JsonRejected "Unexpected token")
  | Some data => alloc data
  end.

Definition fetchProducts (token : option string) (net : network) : M unit :=
  if negb (truthy token) then
    console_error [AString "No token found"];;
    setLoading false
  else
    try_finally
      (try_catch
         (response ← fetch net;
          if ok response then
            data ← json response;
            console_log [AString "Fetched products:"; AArray data];;
            setProducts data;;
            setFilteredProducts data
          else
            console_error [AString "Error fetching products:";
                           AString (statusText response)])
         (fun error =>
            console_error [AString "Error fetching products:"; AException error]))
      (setLoading false).

(** ** Handlers (Cart.js, lines 200-216) *)

Definition handleSort (key order : string) : M unit :=
  setActiveSort (Some (key, order));;
  setSortOption (SortObject key (if bool_decide (order = "Ascending") then 1 else -1)).

Definition handleFilter (key value : string) : M unit :=
  setFilterOption (fun prev => <[key := value]> prev).

Definition handleReset : M unit :=
  setFilterOption (fun _ => ∅);;
  setSortOption SortNull;;
  setActiveSort None;;
  setFilterRefValue "".

(** ** Deriving the displayed list (Cart.js, lines 165-183) *)

(** [v.toLowerCase()] for a value read from a product: a method call on
    [undefined] or [null] throws, and so does calling a method that a
    number or a boolean does not have. *)
Definition value_toLowerCase (v : value) : exn + string :=
  match v with
  | VString s => inr (toLowerCase s)
  | VUndefined => inl (TypeError "Cannot read properties of undefined")
  | VNull => inl (TypeError "Cannot read properties of null")
  | VBoolean _ | VNumber _ => inl (TypeError "toLowerCase is not a function")
  end.

(** The callback of the name filter, lines 169-170. *)
Definition nameMatches (name : string) (product : object) : exn + bool :=
  match value_toLowerCase (get product "name") with
  | inl e => inl e
  | inr lowered => inr (includes lowered (toLowerCase name))
  end.

(** Lines 168-172: [filtered] is reassigned only under the guard. *)
Definition filterByName (filterOption : gmap string string) (filtered : loc) : M loc :=
  if truthy (filterOption !! "name") then
    Array_filter (nameMatches (default "" (filterOption !! "name"))) filtered
  else mret filtered.

(** ** The records the page expects *)

Definition is_string (v : value) : bool :=
  match v with VString _ => true | _ => false end.

(** A number as [JSON.parse] gives it: never NaN. *)
Definition is_numeric (v : value) : bool :=
  match v with
  | VNumber NaN => false
  | VNumber _ => true
  | _ => false
  end.

(** Modelled from the spec: the Product record of the data model, whose
    schema (the server's product model) is not part of these sources.
    [name] and [type] are strings, [price] and [quantity] are numeric;
    the page's effects read no other field. *)
Definition is_Product (p : object) : bool :=
  is_string (get p "name") && is_numeric (get p "price") &&
  is_string (get p "type") && is_numeric (get p "quantity").

(** The keys the sort buttons pass to [handleSort]. *)
Definition sort_keys : list string := ["name"; "price"; "type"; "quantity"].

(** ** Example data *)

(** The two products of the worked example. *)
Definition orange : object :=
  {[ "name" := VString "Orange"; "price" := VNumber (Finite 99) ]}.

Definition orange_orange : object :=
  {[ "name" := VString "Orange orange"; "price" := VNumber (Finite 299) ]}.

(** Three records as the listing endpoint returns them. *)
Definition rice : object :=
  {[ "name" := VString "Rice"; "price" := VNumber (Finite 55);
     "type" := VString "Crop"; "quantity" := VNumber (Finite 120) ]}.

Definition apple : object :=
  {[ "name" := VString "Apple"; "price" := VNumber (Finite 41.99);
     "type" := VString "Fruit"; "quantity" := VNumber (Finite 7) ]}.

Definition eggs : object :=
  {[ "name" := VString "Eggs"; "price" := VNumber (Finite 8.5);
     "type" := VString "Poultry"; "quantity" := VNumber (Finite 30) ]}.

Definition catalogue : list object := [rice; apple; eggs].

(** The page once [catalogue] has been fetched, under a given sort and
    filter. *)
Definition shelf (o : SortOption) (f : gmap string string) : world :=
  {| heap := [ []; []; catalogue ];
     console := [ConsoleLog [AString "Fetched products:"; AArray 2%nat]];
     shop := {| products := 2%nat; filteredProducts := 2%nat; loading := false;
                sortOption := o; filterOption := f;
                activeSort := None; filterRef_value := "" |} |}.

Definition ok_response : Response :=
  {| ok := true; statusText := "OK"; body := Some catalogue |}.

Definition unauthorized : Response :=
  {| ok := false; statusText := "Unauthorized"; body := None |}.

(** The page just after a fetch whose records lack fields: two empty
    records around an orange, sorted by price; and an orange beside an
    empty record, filtered by "o". *)
Definition unpriced : world :=
  {| heap := [ [∅; orange; ∅] ];
     console := [];
     shop := {| products := 0%nat; filteredProducts := 0%nat; loading := false;
                sortOption := SortObject "price" 1; filterOption := ∅;
                activeSort := Some ("price", "Ascending");
                filterRef_value := "" |} |}.

Definition nameless : world :=
  {| heap := [ [orange; ∅] ];
     console := [];
     shop := {| products := 0%nat; filteredProducts := 0%nat; loading := false;
                sortOption := SortUndefined; filterOption := {[ "name" := "o" ]};
                activeSort := None; filterRef_value := "o" |} |}.

(** A reading of strings as numbers for closed examples.  The examples
    compare numbers with numbers and strings with strings, so it is never
    consulted. *)
Definition no_numeric_strings : string -> number := fun _ => NaN.

Section Shop.

(** StringToNumber, the runtime's reading of a string as a numeric
    literal.  Its grammar and rounding play no part in the page; the
    development holds for every such function. *)
Variable StringToNumber : string -> number.

Definition ToNumber (v : value) : number :=
  match v with
  | VUndefined => NaN
  | VNull => Finite 0
  | VBoolean b => Finite (if b then 1 else 0)
  | VNumber n => n
  | VString s => StringToNumber s
  end.

(** IsLessThan: two strings are compared code unit by code unit, anything
    else as numbers. *)
Definition IsLessThan (x y : value) : option bool :=
  match x, y with
  | VString s, VString t => Some (String.ltb s t)
  | _, _ => Number_lessThan (ToNumber x) (ToNumber y)
  end.

(** [x < y] and [x > y]: an undefined comparison is [false]. *)
Definition js_lt (x y : value) : bool := default false (IsLessThan x y).
Definition js_gt (x y : value) : bool := default false (IsLessThan y x).

(** [x <= y] and [x >= y]: true when the opposite strict comparison is
    defined and false. *)
Definition js_le (x y : value) : bool :=
  match IsLessThan y x with Some false => true | _ => false end.
Definition js_ge (x y : value) : bool :=
  match IsLessThan x y with Some false => true | _ => false end.

(** The comparator handed to [sort] (Cart.js, lines 176-179); [order] is
    the number stored under [key] in [sortOption]. *)
Definition comparefn (key : string) (order : Z) (a b : object) : Z :=
  if bool_decide (order = 1) then
    if js_gt (get a key) (get b key) then 1 else -1
  else
    if js_lt (get a key) (get b key) then 1 else -1.

(** Lines 174-180: [Object.entries(sortOption)[0]] is the one entry
    [handleSort] stored. *)
Definition sortBy (sortOption : SortOption) (filtered : loc) : M unit :=
  match sortOption with
  | SortObject key order => Array_sort (comparefn key order) filtered
  | SortUndefined | SortNull => mret tt
  end.

Definition filterSortEffect : M unit :=
  s ← getShop;
  filtered ← spread (products s);
  filtered ← filterByName (filterOption s) filtered;
  sortBy (sortOption s) filtered;;
  setFilteredProducts filtered.

(** What the two steps do to the elements of the array they are given. *)
Definition kept_by (filterOption : gmap string string) (elements : list object)
  : exn + list object :=
  if truthy (filterOption !! "name")
  then keep (nameMatches (default "" (filterOption !! "name"))) elements
  else inr elements.

Definition sorted_by (sortOption : SortOption) (elements : list object) : list object :=
  match sortOption with
  | SortObject key order => sort_elements (comparefn key order) elements
  | SortUndefined | SortNull => elements
  end.

(** The arrays one run of the effect allocates: the copy, and the array
    [filter] returns when the filter is active; the last one is sorted. *)
Definition derived_arrays (s : ShopState) (P kept : list object) : list (list object) :=
  if truthy (filterOption s !! "name")
  then [P; sorted_by (sortOption s) kept]
  else [sorted_by (sortOption s) kept].

(** ** Vocabulary of the properties *)

(** The elements of the array a computation returns, or its exception. *)
Definition elements_of (m : M loc) (w : world) : exn + list object :=
  match m w with
  | (inl e, _) => inl e
  | (inr l, w') =>
      match heap w' !! l with
      | Some elements => inr elements
      | None => inl (TypeError "not an array")
      end
  end.

(** The three ways a fetch attempt fails. *)
Inductive fails : option string -> network -> Prop :=
| missing_token token net :
    truthy token = false -> fails token net
| network_exception token reason :
    fails token (Rejects reason)
| non_2xx token response :
    ok response = false -> fails token (Resolves response).

(** [name] contains [s] when letter case is ignored. *)
Definition contains_ci (name s : string) : Prop :=
  exists pre post, toLowerCase name = pre +:+ toLowerCase s +:+ post.

Definition name_contains (s : string) (p : object) : Prop :=
  exists name, get p "name" = VString name /\ contains_ci name s.

Definition has_name (p : object) : Prop := is_string (get p "name") = true.

(** [if (sortOption)] *)
Definition sort_is_set (o : SortOption) : bool :=
  match o with
  | SortObject _ _ => true
  | SortUndefined | SortNull => false
  end.

(** ** The page's events (Cart.js, lines 225-354) *)

(** The eight sort buttons, lines 235-321: the key and the order each
    passes to [handleSort]. *)
Definition sort_buttons : list (string * string) :=
  [ ("name", "Ascending"); ("price", "Ascending");
    ("type", "Ascending"); ("quantity", "Ascending");
    ("name", "Descending"); ("price", "Descending");
    ("type", "Descending"); ("quantity", "Descending") ].

(** The test that paints a button green:
    [activeSort?.key === key && activeSort?.order === order]. *)
Definition highlighted (active : option (string * string))
    (button : string * string) : bool :=
  match active with
  | Some (key, order) =>
      bool_decide (key = button.1) && bool_decide (order = button.2)
  | None => false
  end.

(** The search box, lines 225-231, is an uncontrolled input: the browser
    stores the text typed, then [onChange] hands it to [handleFilter]. *)
Definition onChange (text : string) : M unit :=
  setFilterRefValue text;;
  handleFilter "name" text.

(** What can happen to the mounted page.  A fetch attempt writes to the
    state only in its last synchronous stretch, so it is one event, at
    the moment it settles. *)
Inductive event :=
| Settled (token : option string) (net : network)
| Derived
| Typed (text : string)
| SortClicked (key order : string)
| ResetClicked.

Definition handle (e : event) : M unit :=
  match e with
  | Settled token net => fetchProducts token net
  | Derived => filterSortEffect
  | Typed text => onChange text
  | SortClicked key order => handleSort key order
  | ResetClicked => handleReset
  end.

(** The world after a sequence of events; an exception of the effect
    leaves the world as it was when it was thrown. *)
Definition run_events (es : list event) (w : world) : world :=
  foldl (fun w e => snd (handle e w)) w es.

(** A sort click comes from one of the eight buttons. *)
Definition from_page (e : event) : Prop :=
  match e with
  | SortClicked key order => (key, order) ∈ sort_buttons
  | _ => True
  end.

Inductive reachable : world -> Prop :=
| reachable_first_render : reachable initialWorld
| reachable_event e w :
    reachable w -> from_page e -> reachable (snd (handle e w)).

(** What is rendered under the heading, lines 333-354. *)
Inductive view :=
| Skeletons (n : nat)
| NoProducts
| Cards (shown : list object).

Definition content (w : world) : exn + view :=
  if loading (shop w) then inr (Skeletons 12)
  else
    match heap w !! filteredProducts (shop w) with
    | None => inl (TypeError "Cannot read properties of undefined")
    | Some shown =>
        if bool_decide (length shown = 0%nat) then inr NoProducts
        else inr (Cards shown)
    end.

(** The body a fetch attempt stores, if it stores one. *)
Definition fetched (token : option string) (net : network) : option (list object) :=
  if truthy token then
    match net with
    | Rejects _ => None
    | Resolves response => if ok response then body response else None
    end
  else None.

(** The line a fetch attempt writes to the console; [data] is where the
    parsed body went. *)
Definition fetch_entry (token : option string) (net : network) (data : loc)
  : console_entry :=
  if truthy token then
    match net with
    | Rejects reason =>
        ConsoleError [AString "Error fetching products:";
                      AException (FetchRejected reason)]
    | Resolves response =>
        if ok response then
          match body response with
          | Some _ => ConsoleLog [AString "Fetched products:"; AArray data]
          | None =>
              ConsoleError [AString "Error fetching products:";
                            AException (JsonRejected "Unexpected token")]
          end
        else
          ConsoleError [AString "Error fetching products:";
                        AString (statusText response)]
    end
  else ConsoleError [AString "No token found"].

(** The body the last successful attempt of a history stored. *)
Definition last_fetched (es : list event) : list object :=
  foldl (fun P e =>
           match e with
           | Settled token net => default P (fetched token net)
           | _ => P
           end) [] es.

Definition is_Settled (e : event) : bool :=
  match e with Settled _ _ => true | _ => false end.

(** The elements [filteredProducts] names after a computation, or the
    exception the computation threw. *)
Definition displayed (m : M unit) (w : world) : exn + list object :=
  match m w with
  | (inl e, _) => inl e
  | (inr _, w') =>
      match heap w' !! filteredProducts (shop w') with
      | Some elements => inr elements
      | None => inl (TypeError "not an array")
      end
  end.

(** What every reachable state of the page satisfies. *)
Definition page_invariant (w : world) : Prop :=
  (products (shop w) < length (heap w))%nat /\
  (filteredProducts (shop w) < length (heap w))%nat /\
  filterRef_value (shop w) = default "" (filterOption (shop w) !! "name") /\
  (forall key, key <> "name" -> filterOption (shop w) !! key = None) /\
  match activeSort (shop w) with
  | Some (key, order) =>
      (key, order) ∈ sort_buttons /\
      sortOption (shop w)
        = SortObject key (if bool_decide (order = "Ascending") then 1 else -1)
  | None => sort_is_set (sortOption (shop w)) = false
  end.

(** ** The popup (Cart.js, lines 84-86 and 187-197) *)

Record PopupState := mkPopup {
  showPopup : bool;
  popupImage : value;
  popupName : value
}.

(** [addToCart] comes from the cart context, which is not part of these
    sources: the page's side is the sequence of products it hands over. *)
Record PopupWorld := mkPopupWorld {
  popup : PopupState;
  handed_to_cart : list object
}.

Definition initialPopup : PopupWorld :=
  {| popup := {| showPopup := false; popupImage := VString "";
                 popupName := VString "" |};
     handed_to_cart := [] |}.

Definition handleClosePopup (w : PopupWorld) : PopupWorld :=
  {| popup := {| showPopup := false; popupImage := popupImage (popup w);
                 popupName := popupName (popup w) |};
     handed_to_cart := handed_to_cart w |}.

Definition handleAddToCart (product : object) (w : PopupWorld) : PopupWorld :=
  {| popup := {| showPopup := true; popupImage := get product "imageUrl";
                 popupName := get product "name" |};
     handed_to_cart := handed_to_cart w ++ [product] |}.

Inductive popup_event :=
| AddClicked (product : object)
| CloseClicked.

Definition popup_handle (w : PopupWorld) (e : popup_event) : PopupWorld :=
  match e with
  | AddClicked product => handleAddToCart product w
  | CloseClicked => handleClosePopup w
  end.

Definition added (e : popup_event) : option object :=
  match e with
  | AddClicked product => Some product
  | CloseClicked => None
  end.

(** ** The monad *)

Lemma M_left_identity {A B} (a : A) (k : A -> M B) (w : world) :
  (mret a ≫= k) w = k a w.
Proof. done. Qed.

Lemma M_right_identity {A} (m : M A) (w : world) :
  (m ≫= mret) w = m w.
Proof. unfold mbind, M_bind, mret, M_ret. by destruct (m w) as [[e|a] w']. Qed.

Lemma M_associative {A B C} (m : M A) (k : A -> M B) (h : B -> M C) (w : world) :
  ((m ≫= k) ≫= h) w = (m ≫= fun a => k a ≫= h) w.
Proof. unfold mbind, M_bind. by destruct (m w) as [[e|a] w']. Qed.

Lemma run_seq {A B} (m : M A) (k : M B) (w w1 : world) (a : A) :
  m w = (inr a, w1) -> (m;; k) w = k w1.
Proof. unfold mbind, M_bind. by intros ->. Qed.

(** Open the control operators and the heap primitives of a run. *)
Ltac unfold_run :=
  unfold try_finally, try_catch, fetch, json, Array_filter, Array_sort, spread,
    throw, lift, alloc, read, write, mbind, M_bind, mret, M_ret.

(** ** Strings *)

Lemma startsWith_spec (s t : string) :
  startsWith s t = true <-> exists post, s = t +:+ post.
Proof.
  revert s. induction t as [|d t IH]; intros s; simpl.
  - split; [by exists s|done].
  - destruct s as [|c s]; simpl.
    + split; [done|by intros [post ?]].
    + rewrite andb_true_iff, bool_decide_eq_true, IH. split.
      * intros [-> [post ->]]. by exists post.
      * intros [post [= -> ->]]. eauto.
Qed.

Lemma includes_spec (s t : string) :
  includes s t = true <-> exists pre post, s = pre +:+ t +:+ post.
Proof.
  induction s as [|c s IH]; simpl; rewrite orb_true_iff, startsWith_spec.
  - split.
    + intros [[post H]|?]; [|done]. by exists "", post.
    + intros [[|c pre] [post H]]; [left; by exists post|done].
  - rewrite IH. split.
    + intros [[post H]|[pre [post ->]]]; [by exists "", post|].
      by exists (String c pre), post.
    + intros [[|c' pre] [post H]]; [left; by exists post|].
      right. injection H as -> ->. by exists pre, post.
Qed.

#[global] Instance name_contains_dec (s : string) (p : object) :
  Decision (name_contains s p).
Proof.
  unfold name_contains, contains_ci.
  destruct (get p "name") as [| | | |name];
    try (right; intros [x [? _]]; discriminate).
  destruct (includes (toLowerCase name) (toLowerCase s)) eqn:E.
  - left. exists name. split; [done|]. by apply includes_spec.
  - right. intros [x [[= <-] H]]. apply includes_spec in H. congruence.
Defined.

Lemma nameMatches_spec (s : string) (p : object) :
  has_name p -> nameMatches s p = inr (bool_decide (name_contains s p)).
Proof.
  unfold has_name, nameMatches. intros Hn.
  destruct (get p "name") as [| | | |name] eqn:E; try done. simpl.
  f_equal. symmetry. destruct (includes _ _) eqn:I.
  - apply bool_decide_eq_true. exists name. split; [done|]. by apply includes_spec.
  - apply bool_decide_eq_false. intros [x [Hx H]].
    rewrite E in Hx. injection Hx as <-. apply includes_spec in H. congruence.
Qed.

(** ** The filter *)

Lemma keep_total (callback : object -> exn + bool) (f : object -> Prop)
    `{!forall p, Decision (f p)} (P : list object) :
  Forall (fun p => callback p = inr (bool_decide (f p))) P ->
  keep callback P = inr (filter f P).
Proof.
  induction 1 as [|p P Hp _ IH]; simpl; [done|].
  rewrite Hp, IH. rewrite filter_cons. by case_bool_decide; case_decide.
Qed.

Lemma keep_idempotent (callback : object -> exn + bool) (P Q : list object) :
  keep callback P = inr Q -> keep callback Q = inr Q.
Proof.
  revert Q. induction P as [|p P IH]; intros Q; simpl.
  - by intros [= <-].
  - destruct (callback p) as [e|b] eqn:Hp; [done|].
    destruct (keep callback P) as [e|kept]; [done|].
    intros [= <-]. destruct b; simpl; [|by apply IH].
    by rewrite Hp, (IH kept).
Qed.

Lemma keep_sublist (callback : object -> exn + bool) (P Q : list object) :
  keep callback P = inr Q -> sublist Q P.
Proof.
  revert Q. induction P as [|p P IH]; intros Q; simpl.
  - intros [= <-]. constructor.
  - destruct (callback p) as [e|b]; [done|].
    destruct (keep callback P) as [e|kept]; [done|].
    intros [= <-]. destruct b; [apply sublist_skip|apply sublist_cons]; by apply IH.
Qed.

Lemma keep_named (s : string) (P : list object) :
  Forall has_name P -> keep (nameMatches s) P = inr (filter (name_contains s) P).
Proof.
  intros H. apply keep_total. eapply Forall_impl; [exact H|].
  intros p. apply nameMatches_spec.
Qed.

(** ** Order facts *)

Lemma string_compare_refl (s : string) : String.compare s s = Eq.
Proof.
  induction s as [|c s IH]; simpl; [done|].
  unfold Ascii.compare. by rewrite N.compare_refl.
Qed.

Lemma string_ltb_irrefl (s : string) : String.ltb s s = false.
Proof. unfold String.ltb. by rewrite string_compare_refl. Qed.

Lemma string_ltb_asym (s t : string) :
  String.ltb s t = true -> String.ltb t s = false.
Proof.
  unfold String.ltb. rewrite (String.compare_antisym s t).
  by destruct (String.compare t s).
Qed.

Lemma Number_lessThan_irrefl (x : number) : Number_lessThan x x <> Some true.
Proof.
  destruct x as [| |p|]; simpl; try done.
  intros [= H]. apply negb_true_iff in H.
  assert (Qle_bool p p = true) by (apply Qle_bool_iff, Qle_refl). congruence.
Qed.

Lemma Number_lessThan_asym (x y : number) :
  Number_lessThan x y = Some true -> Number_lessThan y x = Some false.
Proof.
  destruct x as [| |p|], y as [| |q|]; simpl; try done.
  intros [= H]. f_equal. apply negb_true_iff in H. apply negb_false_iff.
  apply Qle_bool_iff. apply Qlt_le_weak. apply Qnot_le_lt.
  intros Hle. apply Qle_bool_iff in Hle. congruence.
Qed.

Lemma IsLessThan_irrefl (v : value) : IsLessThan v v <> Some true.
Proof.
  destruct v; cbn [IsLessThan]; try apply Number_lessThan_irrefl.
  by rewrite string_ltb_irrefl.
Qed.

Lemma Number_lessThan_undefined (x y : number) :
  Number_lessThan x y = None -> Number_lessThan y x = None.
Proof. by destruct x, y. Qed.

Lemma IsLessThan_undefined (x y : value) :
  IsLessThan x y = None -> IsLessThan y x = None.
Proof.
  destruct x, y; cbn [IsLessThan]; try apply Number_lessThan_undefined. done.
Qed.

(** Two values of one kind, as two products have under one key. *)
Definition same_kind (x y : value) : bool :=
  is_string x && is_string y || is_numeric x && is_numeric y.

Lemma same_kind_defined (x y : value) :
  same_kind x y = true -> is_Some (IsLessThan x y).
Proof.
  destruct x as [| | |[]|], y as [| | |[]|]; simpl; try done; eauto.
Qed.

Lemma same_kind_asym (x y : value) :
  same_kind x y = true ->
  IsLessThan x y = Some true -> IsLessThan y x = Some false.
Proof.
  unfold same_kind.
  destruct x as [| | |n|s], y as [| | |m|t]; cbn [IsLessThan ToNumber];
    rewrite ?andb_false_r; try done.
  - intros _. apply Number_lessThan_asym.
  - intros _ [= H]. f_equal. by apply string_ltb_asym.
Qed.

Lemma Product_same_kind (p q : object) (key : string) :
  is_Product p = true -> is_Product q = true -> key ∈ sort_keys ->
  same_kind (get p key) (get q key) = true.
Proof.
  unfold is_Product, same_kind, sort_keys. rewrite !andb_true_iff.
  intros [[[Hn Hp] Ht] Hq] [[[Hn' Hp'] Ht'] Hq'] Hkey.
  repeat (apply elem_of_cons in Hkey as [->|Hkey]);
    [| | | | by apply elem_of_nil in Hkey];
    rewrite ?Hn, ?Hn', ?Hp, ?Hp', ?Ht, ?Ht', ?Hq, ?Hq'; simpl;
    by rewrite ?orb_true_r.
Qed.

(** ** The comparator *)

Lemma comparefn_cases (key : string) (order : Z) (a b : object) :
  comparefn key order a b = 1 \/ comparefn key order a b = -1.
Proof.
  unfold comparefn. case_bool_decide.
  - destruct (js_gt _ _); auto.
  - destruct (js_lt _ _); auto.
Qed.

Lemma comparefn_ascending (key : string) (a b : object) :
  comparefn key 1 a b = if js_gt (get a key) (get b key) then 1 else -1.
Proof. done. Qed.

Lemma comparefn_descending (key : string) (order : Z) (a b : object) :
  order <> 1 ->
  comparefn key order a b = if js_lt (get a key) (get b key) then 1 else -1.
Proof. intros H. unfold comparefn. by rewrite bool_decide_eq_false_2. Qed.

(** ** Insertion sort *)

Lemma sort_insert_perm {A} (cmp : A -> A -> Z) (x : A) (l : list A) :
  sort_insert cmp x l ≡ₚ x :: l.
Proof.
  induction l as [|y l IH]; simpl; [done|].
  case_bool_decide; [done|]. rewrite IH. apply Permutation_swap.
Qed.

Lemma sort_elements_perm {A} (cmp : A -> A -> Z) (l : list A) :
  sort_elements cmp l ≡ₚ l.
Proof.
  unfold sort_elements.
  enough (H : forall acc, foldl (fun sorted x => sort_insert cmp x sorted) acc l ≡ₚ acc ++ l)
    by apply (H []).
  induction l as [|x l IH]; intros acc; simpl.
  - by rewrite app_nil_r.
  - rewrite IH, sort_insert_perm. simpl. apply Permutation_middle.
Qed.

Section SortedBy.

Context {A : Type} (cmp : A -> A -> Z) (R : A -> A -> Prop) (ok : A -> Prop).
Hypothesis below : forall x y, ok x -> ok y -> cmp x y < 0 -> R x y.
Hypothesis not_below : forall x y, ok x -> ok y -> ~ cmp x y < 0 -> R y x.

Lemma sort_insert_Sorted (x : A) (l : list A) :
  ok x -> Forall ok l -> Sorted R l -> Sorted R (sort_insert cmp x l).
Proof.
  intros Hx Hl Hs. induction Hs as [|y l Hs IH Hhd]; simpl.
  - repeat constructor.
  - apply Forall_cons in Hl as [Hy Hl]. case_bool_decide as Hc.
    + constructor; [by constructor|]. constructor. by apply below.
    + constructor; [by apply IH|].
      destruct Hhd as [|z l' Hyz]; simpl.
      * constructor. by apply not_below.
      * case_bool_decide; constructor; [by apply not_below|done].
Qed.

Lemma sort_insert_Forall (x : A) (l : list A) :
  ok x -> Forall ok l -> Forall ok (sort_insert cmp x l).
Proof.
  intros Hx Hl. rewrite (sort_insert_perm cmp x l). by constructor.
Qed.

Lemma sort_elements_Sorted (l : list A) :
  Forall ok l -> Sorted R (sort_elements cmp l).
Proof.
  unfold sort_elements.
  enough (H : forall acc, Forall ok acc -> Sorted R acc -> Forall ok l ->
            Sorted R (foldl (fun sorted x => sort_insert cmp x sorted) acc l))
    by (apply H; constructor).
  induction l as [|x l IH]; intros acc Hacc Hs Hl; simpl; [done|].
  apply Forall_cons in Hl as [Hx Hl].
  apply IH; [by apply sort_insert_Forall|by apply sort_insert_Sorted|done].
Qed.

End SortedBy.

Lemma Sorted_adjacent {A} (R : A -> A -> Prop) (l : list A) (i : nat) (a b : A) :
  Sorted R l -> l !! i = Some a -> l !! S i = Some b -> R a b.
Proof.
  intros Hs. revert i. induction Hs as [|x l Hs IH Hhd]; intros i Ha Hb; [done|].
  destruct i as [|i]; simpl in *.
  - injection Ha as ->. destruct Hhd as [|y l' Hxy]; [done|].
    simpl in Hb. by injection Hb as ->.
  - by apply (IH i).
Qed.

(** ** Running the derivation effect *)

Lemma lookup_snoc {A} (h : list A) (x : A) : (h ++ [x]) !! length h = Some x.
Proof. by rewrite list_lookup_middle. Qed.

Lemma insert_snoc {A} (h : list A) (x y : A) :
  <[length h := y]> (h ++ [x]) = h ++ [y].
Proof.
  rewrite insert_app_r_alt by lia. by rewrite Nat.sub_diag.
Qed.

Lemma filterSortEffect_run (w : world) (P : list object) :
  heap w !! products (shop w) = Some P ->
  filterSortEffect w =
    match kept_by (filterOption (shop w)) P with
    | inl e => (inl e, mkWorld (heap w ++ [P]) (console w) (shop w))
    | inr kept =>
        let arrays := derived_arrays (shop w) P kept in
        (inr tt,
         mkWorld (heap w ++ arrays) (console w)
           (mkShop (products (shop w)) (length (heap w) + length arrays - 1)%nat
              (loading (shop w)) (sortOption (shop w)) (filterOption (shop w))
              (activeSort (shop w)) (filterRef_value (shop w))))
    end.
Proof.
  intros HP. destruct w as [h c [pr fp ld so fo act fr]]. simpl in *.
  unfold filterSortEffect, filterByName, kept_by, derived_arrays, sortBy,
    getShop, setFilteredProducts, modifyShop.
  unfold_run. simpl.
  rewrite HP. simpl.
  destruct (truthy (fo !! "name")); simpl.
  - rewrite lookup_snoc.
    destruct (keep _ P) as [e|kept]; simpl; [done|].
    replace (length h + 2 - 1)%nat with (length (h ++ [P]))
      by (rewrite length_app; simpl; lia).
    destruct so; simpl; rewrite ?lookup_snoc; simpl; rewrite ?insert_snoc;
      by rewrite <- app_assoc.
  - replace (length h + 1 - 1)%nat with (length h) by lia.
    destruct so; simpl; try done.
    rewrite lookup_snoc. simpl. by rewrite insert_snoc.
Qed.

Lemma derived_arrays_last (h : list (list object)) (s : ShopState)
    (P kept : list object) :
  (h ++ derived_arrays s P kept)
    !! (length h + length (derived_arrays s P kept) - 1)%nat
  = Some (sorted_by (sortOption s) kept).
Proof.
  unfold derived_arrays. destruct (truthy _); cbn [length].
  - replace (length h + 2 - 1)%nat with (length (h ++ [P]))
      by (rewrite length_app; simpl; lia).
    change (h ++ [P; ?x]) with (h ++ [P] ++ [x]).
    rewrite app_assoc. apply lookup_snoc.
  - replace (length h + 1 - 1)%nat with (length h) by lia.
    apply lookup_snoc.
Qed.

Lemma derived_arrays_length (s : ShopState) (P kept : list object) :
  (1 <= length (derived_arrays s P kept))%nat.
Proof. unfold derived_arrays. destruct (truthy _); simpl; lia. Qed.

(** A run on which the filter does not throw completes, and
    [filteredProducts] then names a new array. *)
Lemma filterSortEffect_returns (w : world) (P kept : list object) :
  heap w !! products (shop w) = Some P ->
  kept_by (filterOption (shop w)) P = inr kept ->
  exists w' : world,
    filterSortEffect w = (inr tt, w') /\
    heap w' !! filteredProducts (shop w')
      = Some (sorted_by (sortOption (shop w)) kept) /\
    (length (heap w) <= filteredProducts (shop w'))%nat /\
    products (shop w') = products (shop w) /\
    (forall l, (l < length (heap w))%nat -> heap w' !! l = heap w !! l).
Proof.
  intros HP Hkept. rewrite (filterSortEffect_run _ _ HP), Hkept. cbn zeta.
  eexists. split; [done|]. cbn [heap shop filteredProducts products].
  split; [apply derived_arrays_last|].
  pose proof (derived_arrays_length (shop w) P kept).
  split; [lia|]. split; [done|].
  intros l Hl. by apply lookup_app_l.
Qed.

Lemma sorted_by_unset (o : SortOption) (l : list object) :
  sort_is_set o = false -> sorted_by o l = l.
Proof. by destruct o. Qed.

(** ** Properties of the comparator and of the derived list *)

(** C2: the comparator never returns 0.  Ascending ([order] 1) it returns
    1 exactly when [a[key] > b[key]] and -1 otherwise; descending (any
    other [order], in the page -1) it returns 1 exactly when
    [a[key] < b[key]] and -1 otherwise.  Equal values and values whose
    comparison is undefined fall to the -1 branch in both directions. *)
Theorem comparefn_never_zero (key : string) (order : Z) (a b : object) :
  comparefn key order a b <> 0 /\
  (comparefn key 1 a b = 1 <-> js_gt (get a key) (get b key) = true) /\
  (comparefn key 1 a b = -1 <-> js_gt (get a key) (get b key) = false) /\
  (order <> 1 ->
   (comparefn key order a b = 1 <-> js_lt (get a key) (get b key) = true) /\
   (comparefn key order a b = -1 <-> js_lt (get a key) (get b key) = false)) /\
  (get a key = get b key -> comparefn key order a b = -1) /\
  (IsLessThan (get a key) (get b key) = None -> comparefn key order a b = -1).
Proof.
  split; [destruct (comparefn_cases key order a b) as [-> | ->]; done|].
  rewrite comparefn_ascending.
  split; [destruct (js_gt _ _); split; done|].
  split; [destruct (js_gt _ _); split; done|].
  split.
  { intros Hd. rewrite (comparefn_descending _ _ _ _ Hd).
    destruct (js_lt _ _); repeat split; done. }
  split.
  - intros Heq. unfold comparefn, js_gt, js_lt. rewrite Heq.
    pose proof (IsLessThan_irrefl (get b key)) as Hirr.
    destruct (IsLessThan (get b key) (get b key)) as [[]|]; simpl;
      by case_bool_decide.
  - intros Hu. unfold comparefn, js_gt, js_lt.
    rewrite Hu, (IsLessThan_undefined _ _ Hu). simpl. by case_bool_decide.
Qed.

(** C1: on a list of Products, with the sort set to one of the four keys
    in either direction, the effect completes and every adjacent pair of
    [filteredProducts] is in order under that key: [a[key] <= b[key]]
    ascending, [a[key] >= b[key]] descending.  The result holds the
    products the filter keeps, each as often. *)
Theorem sorted_adjacent_pairs (w : world) (P : list object) (key : string)
    (ascending : bool) :
  heap w !! products (shop w) = Some P ->
  Forall (fun p => is_Product p = true) P ->
  key ∈ sort_keys ->
  sortOption (shop w) = SortObject key (if ascending then 1 else -1) ->
  exists (w' : world) (kept Q : list object),
    filterSortEffect w = (inr tt, w') /\
    heap w' !! filteredProducts (shop w') = Some Q /\
    kept_by (filterOption (shop w)) P = inr kept /\
    Q ≡ₚ kept /\
    forall (i : nat) (a b : object),
      Q !! i = Some a -> Q !! S i = Some b ->
      (if ascending then js_le (get a key) (get b key)
       else js_ge (get a key) (get b key)) = true.
Proof.
  intros HP Hty Hkey Hso.
  assert (Hnamed : Forall has_name P).
  { eapply Forall_impl; [exact Hty|]. intros p Hp. unfold has_name.
    unfold is_Product in Hp. rewrite !andb_true_iff in Hp. tauto. }
  assert (Hkept : exists kept, kept_by (filterOption (shop w)) P = inr kept /\
                               sublist kept P).
  { unfold kept_by. destruct (truthy _).
    - rewrite (keep_named _ _ Hnamed). eexists. split; [done|].
      apply sublist_filter.
    - by exists P. }
  destruct Hkept as [kept [Hkept Hsub]].
  assert (Hty' : Forall (fun p => is_Product p = true) kept).
  { rewrite Forall_forall in Hty |- *. intros p Hp. apply Hty.
    by apply (elem_of_sublist kept P). }
  destruct (filterSortEffect_returns _ _ _ HP Hkept) as (w' & Hrun & HQ & _).
  exists w', kept, (sorted_by (sortOption (shop w)) kept).
  split; [done|]. split; [done|].
  split; [done|]. rewrite Hso. cbn [sorted_by].
  split; [apply sort_elements_perm|].
  intros i a b Ha Hb.
  set (R := fun a b : object =>
              (if ascending then js_le (get a key) (get b key)
               else js_ge (get a key) (get b key)) = true).
  eapply (Sorted_adjacent R); [|exact Ha|exact Hb].
  apply (sort_elements_Sorted _ R (fun p => is_Product p = true));
    [| |done]; unfold R.
  - intros x y Hx Hy Hc.
    pose proof (Product_same_kind y x key Hy Hx Hkey) as Hk.
    destruct (same_kind_defined _ _ Hk) as [r Hr].
    destruct ascending.
    + rewrite comparefn_ascending in Hc. unfold js_gt, js_le in *.
      rewrite Hr in *. by destruct r.
    + rewrite comparefn_descending in Hc by done. unfold js_lt, js_ge in *.
      pose proof (Product_same_kind x y key Hx Hy Hkey) as Hk'.
      destruct (same_kind_defined _ _ Hk') as [r' Hr'].
      rewrite Hr' in *. by destruct r'.
  - intros x y Hx Hy Hc.
    pose proof (Product_same_kind y x key Hy Hx Hkey) as Hk.
    pose proof (Product_same_kind x y key Hx Hy Hkey) as Hk'.
    destruct ascending.
    + rewrite comparefn_ascending in Hc. unfold js_gt, js_le in *.
      destruct (IsLessThan (get y key) (get x key)) as [[]|] eqn:Hr;
        simpl in Hc; try (exfalso; apply Hc; lia).
      by rewrite (same_kind_asym _ _ Hk Hr).
    + rewrite comparefn_descending in Hc by done. unfold js_lt, js_ge in *.
      destruct (IsLessThan (get x key) (get y key)) as [[]|] eqn:Hr;
        simpl in Hc; try (exfalso; apply Hc; lia).
      by rewrite (same_kind_asym _ _ Hk' Hr).
Qed.

(** C5: whatever the filter and the sort were, after [handleReset] the
    effect completes and [filteredProducts] holds exactly the elements of
    [products], in their order. *)
Theorem reset_restores_products (w : world) (P : list object) :
  heap w !! products (shop w) = Some P ->
  exists w' : world,
    (handleReset;; filterSortEffect) w = (inr tt, w') /\
    filterOption (shop w') = ∅ /\
    sortOption (shop w') = SortNull /\
    heap w' !! products (shop w') = Some P /\
    heap w' !! filteredProducts (shop w') = Some P.
Proof.
  intros HP.
  set (w1 := mkWorld (heap w) (console w)
               (mkShop (products (shop w)) (filteredProducts (shop w))
                  (loading (shop w)) SortNull ∅ None "")).
  rewrite (run_seq handleReset filterSortEffect w w1 tt) by done.
  rewrite (filterSortEffect_run w1 P HP). simpl.
  eexists. split; [done|]. simpl. rewrite Nat.add_sub.
  repeat split; [|apply lookup_snoc].
  rewrite lookup_app_l; [done|]. by eapply lookup_lt_Some.
Qed.

(** C7: filtering the array the name filter returns, with the same
    filter, gives the elements the first filtering gave (or the exception
    it threw). *)
Theorem name_filter_idempotent (filterOption : gmap string string) (arr : loc)
    (w : world) :
  elements_of (once ← filterByName filterOption arr;
               filterByName filterOption once) w
  = elements_of (filterByName filterOption arr) w.
Proof.
  unfold elements_of, filterByName. unfold_run.
  destruct (truthy (filterOption !! "name")); [|done].
  destruct (heap w !! arr) as [P|]; [|done].
  destruct (keep _ P) as [e|kept] eqn:Hkeep; [done|].
  cbn [heap]. rewrite lookup_snoc, (keep_idempotent _ _ _ Hkeep).
  cbn [heap]. by rewrite !lookup_snoc.
Qed.

(** C9: a run of the effect leaves every array that existed before it as
    it was, the one [products] names among them, and does not change
    which array [products] names.  Either the filter's callback throws
    and [filteredProducts] is not set, or the run completes and
    [filteredProducts] names an array allocated during the run, hence
    another array than [products]. *)
Theorem effect_does_not_mutate_products (w : world) (P : list object) :
  heap w !! products (shop w) = Some P ->
  let r := filterSortEffect w in
  products (shop (snd r)) = products (shop w) /\
  heap (snd r) !! products (shop (snd r)) = Some P /\
  (forall l, (l < length (heap w))%nat -> heap (snd r) !! l = heap w !! l) /\
  ((exists e, fst r = inl e /\
      filteredProducts (shop (snd r)) = filteredProducts (shop w)) \/
   (fst r = inr tt /\
      heap w !! filteredProducts (shop (snd r)) = None /\
      is_Some (heap (snd r) !! filteredProducts (shop (snd r))) /\
      filteredProducts (shop (snd r)) <> products (shop w))).
Proof.
  intros HP r. subst r. pose proof (lookup_lt_Some _ _ _ HP) as Hlt.
  destruct (kept_by (filterOption (shop w)) P) as [e|kept] eqn:Hkept.
  - rewrite (filterSortEffect_run _ _ HP), Hkept. simpl.
    split; [done|]. split; [by rewrite lookup_app_l|].
    split; [intros l Hl; by rewrite lookup_app_l|]. left. by exists e.
  - destruct (filterSortEffect_returns _ _ _ HP Hkept)
      as (w' & -> & HQ & Hnew & Hprod & Hold). simpl.
    split; [done|]. split; [by rewrite Hprod, Hold|]. split; [done|].
    right. split; [done|].
    split; [by apply lookup_ge_None_2|]. split; [by eexists|lia].
Qed.

(** C10: a [filterOption.name] that is the empty string is no filter.
    The filter step returns the array it was given without reading it,
    and after [handleFilter("name", "")], with no sort set, the effect
    makes [filteredProducts] hold exactly the elements of [products]. *)
Theorem empty_name_is_no_filter (w : world) (P : list object) :
  heap w !! products (shop w) = Some P ->
  sort_is_set (sortOption (shop w)) = false ->
  (forall (fo : gmap string string) (arr : loc) (v : world),
     fo !! "name" = Some "" -> filterByName fo arr v = (inr arr, v)) /\
  exists w' : world,
    (handleFilter "name" "";; filterSortEffect) w = (inr tt, w') /\
    filterOption (shop w') !! "name" = Some "" /\
    heap w' !! filteredProducts (shop w') = Some P.
Proof.
  intros HP Hso. split.
  { intros fo arr v Hfo. unfold filterByName. by rewrite Hfo. }
  set (w1 := mkWorld (heap w) (console w)
               (mkShop (products (shop w)) (filteredProducts (shop w))
                  (loading (shop w)) (sortOption (shop w))
                  (<["name" := ""]> (filterOption (shop w)))
                  (activeSort (shop w)) (filterRef_value (shop w)))).
  rewrite (run_seq (handleFilter "name" "") filterSortEffect w w1 tt) by done.
  assert (Hkept : kept_by (filterOption (shop w1)) P = inr P).
  { unfold kept_by. simpl. by rewrite lookup_insert_eq. }
  destruct (filterSortEffect_returns w1 P P HP Hkept) as (w' & Hrun & HQ & _).
  exists w'. split; [done|].
  rewrite (filterSortEffect_run w1 P HP), Hkept in Hrun.
  injection Hrun as <-. simpl. split; [apply lookup_insert_eq|].
  simpl in HQ. by rewrite (sorted_by_unset _ _ Hso) in HQ.
Qed.

(** C6: with a non-empty [filterOption.name] the filter step returns the
    products whose name contains that text when letter case is ignored,
    in their order.  On the two oranges, typing "orange" in any letter
    case keeps both, and sorting by price descending puts the one priced
    299 first. *)
Theorem name_filter_ignores_case :
  (forall (w : world) (arr : loc) (P : list object)
          (fo : gmap string string) (s : string),
     heap w !! arr = Some P -> Forall has_name P ->
     fo !! "name" = Some s -> s <> "" ->
     elements_of (filterByName fo arr) w = inr (filter (name_contains s) P)) /\
  (forall (w : world) (s : string),
     heap w !! products (shop w) = Some [orange; orange_orange] ->
     sort_is_set (sortOption (shop w)) = false ->
     toLowerCase s = "orange" ->
     exists w' : world,
       (handleFilter "name" s;; filterSortEffect) w = (inr tt, w') /\
       heap w' !! filteredProducts (shop w') = Some [orange; orange_orange]) /\
  (forall w : world,
     heap w !! products (shop w) = Some [orange; orange_orange] ->
     truthy (filterOption (shop w) !! "name") = false ->
     exists w' : world,
       (handleSort "price" "Descending";; filterSortEffect) w = (inr tt, w') /\
       heap w' !! filteredProducts (shop w') = Some [orange_orange; orange]).
Proof.
  split; [|split].
  - intros w arr P fo s HP Hnamed Hfo Hs.
    unfold elements_of, filterByName. rewrite Hfo. simpl.
    rewrite bool_decide_eq_false_2 by done. simpl.
    unfold_run.
    rewrite HP, (keep_named _ _ Hnamed). cbn [heap]. by rewrite lookup_snoc.
  - intros w s HP Hso Hs.
    set (w1 := mkWorld (heap w) (console w)
                 (mkShop (products (shop w)) (filteredProducts (shop w))
                    (loading (shop w)) (sortOption (shop w))
                    (<["name" := s]> (filterOption (shop w)))
                    (activeSort (shop w)) (filterRef_value (shop w)))).
    rewrite (run_seq (handleFilter "name" s) filterSortEffect w w1 tt) by done.
    assert (Hkept : kept_by (filterOption (shop w1)) [orange; orange_orange]
                    = inr [orange; orange_orange]).
    { unfold kept_by. simpl. rewrite lookup_insert_eq. simpl.
      rewrite bool_decide_eq_false_2.
      - simpl. unfold nameMatches. rewrite Hs. by vm_compute.
      - intros ->. discriminate Hs. }
    destruct (filterSortEffect_returns w1 _ _ HP Hkept) as (w' & Hrun & HQ & _).
    exists w'. split; [done|]. simpl in HQ.
    by rewrite (sorted_by_unset _ _ Hso) in HQ.
  - intros w HP Hfo.
    set (w1 := mkWorld (heap w) (console w)
                 (mkShop (products (shop w)) (filteredProducts (shop w))
                    (loading (shop w)) (SortObject "price" (-1))
                    (filterOption (shop w))
                    (Some ("price", "Descending")) (filterRef_value (shop w)))).
    rewrite (run_seq (handleSort "price" "Descending") filterSortEffect w w1 tt)
      by done.
    assert (Hkept : kept_by (filterOption (shop w1)) [orange; orange_orange]
                    = inr [orange; orange_orange]).
    { unfold kept_by. simpl. by rewrite Hfo. }
    destruct (filterSortEffect_returns w1 _ _ HP Hkept) as (w' & Hrun & HQ & _).
    exists w'. split; [done|]. rewrite HQ. f_equal.
Qed.

(** ** Properties of the fetch *)

(** C3: a fetch attempt that fails (no token, the request rejected, or a
    response that is not ok) ends without an exception, leaves [products]
    naming the same array and every array as it was (an empty list stays
    empty), and leaves [loading] false: a flag that was true, as after
    the first render, has gone from true to false. *)
Theorem failed_fetch_keeps_products (token : option string) (net : network)
    (w : world) :
  fails token net ->
  let r := fetchProducts token net w in
  fst r = inr tt /\
  products (shop (snd r)) = products (shop w) /\
  filteredProducts (shop (snd r)) = filteredProducts (shop w) /\
  heap (snd r) = heap w /\
  loading (shop (snd r)) = false /\
  loading (shop initialWorld) = true /\
  (loading (shop w) = true -> loading (shop (snd r)) <> loading (shop w)).
Proof.
  intros Hfail. unfold fetchProducts.
  destruct Hfail as [token net Ht | token reason | token response Hok].
  - rewrite Ht. simpl. repeat split. by intros ->.
  - destruct (truthy token); simpl; repeat split; by intros ->.
  - destruct (truthy token); simpl; [|repeat split; by intros ->].
    unfold_run. rewrite Hok. simpl. repeat split. by intros ->.
Qed.

(** C4, as amended: a fetch attempt that fails writes one [console.error]
    entry and leaves the product list as it was before the attempt.  The
    list is not emptied. *)
Theorem failed_fetch_logs_and_keeps_list (token : option string) (net : network)
    (w : world) (P : list object) :
  fails token net ->
  heap w !! products (shop w) = Some P ->
  let w' := snd (fetchProducts token net w) in
  (exists args, console w' = console w ++ [ConsoleError args]) /\
  heap w' !! products (shop w') = Some P.
Proof.
  intros Hfail HP. unfold fetchProducts.
  destruct Hfail as [token net Ht | token reason | token response Hok].
  - rewrite Ht. simpl. split; [by eexists|done].
  - destruct (truthy token); simpl; (split; [by eexists|done]).
  - destruct (truthy token); simpl; [|split; [by eexists|done]].
    unfold_run. rewrite Hok. simpl. split; [by eexists|done].
Qed.

(** C8: with a token, an ok response and a body that parses, the attempt
    ends without an exception; [products] and [filteredProducts] both name
    the array parsed from the body, a new array holding the body's
    records, and [loading] is false. *)
Theorem successful_fetch_replaces_both (token : option string)
    (response : Response) (data : list object) (w : world) :
  truthy token = true ->
  ok response = true ->
  body response = Some data ->
  let r := fetchProducts token (Resolves response) w in
  fst r = inr tt /\
  heap (snd r) = heap w ++ [data] /\
  products (shop (snd r)) = length (heap w) /\
  filteredProducts (shop (snd r)) = length (heap w) /\
  heap (snd r) !! products (shop (snd r)) = Some data /\
  heap (snd r) !! filteredProducts (shop (snd r)) = Some data /\
  loading (shop (snd r)) = false.
Proof.
  intros Ht Hok Hbody. unfold fetchProducts. rewrite Ht. simpl.
  unfold_run. rewrite Hok, Hbody. simpl. repeat split; apply lookup_snoc.
Qed.

(** ** Running the fetch and the handlers *)

Lemma fetchProducts_run (token : option string) (net : network) (w : world) :
  fetchProducts token net w =
    (inr tt,
     mkWorld (heap w ++ option_list (fetched token net))
       (console w ++ [fetch_entry token net (length (heap w))])
       (match fetched token net with
        | Some _ =>
            mkShop (length (heap w)) (length (heap w)) false
              (sortOption (shop w)) (filterOption (shop w))
              (activeSort (shop w)) (filterRef_value (shop w))
        | None =>
            mkShop (products (shop w)) (filteredProducts (shop w)) false
              (sortOption (shop w)) (filterOption (shop w))
              (activeSort (shop w)) (filterRef_value (shop w))
        end)).
Proof.
  unfold fetchProducts, fetched, fetch_entry.
  destruct (truthy token); simpl; [|by rewrite app_nil_r].
  destruct net as [reason|[okay text [data|]]]; unfold_run; simpl;
    try destruct okay; simpl; by rewrite ?app_nil_r.
Qed.

Lemma handleSort_run (key order : string) (w : world) :
  handleSort key order w =
    (inr tt,
     mkWorld (heap w) (console w)
       (mkShop (products (shop w)) (filteredProducts (shop w)) (loading (shop w))
          (SortObject key (if bool_decide (order = "Ascending") then 1 else -1))
          (filterOption (shop w)) (Some (key, order)) (filterRef_value (shop w)))).
Proof. done. Qed.

Lemma onChange_run (text : string) (w : world) :
  onChange text w =
    (inr tt,
     mkWorld (heap w) (console w)
       (mkShop (products (shop w)) (filteredProducts (shop w)) (loading (shop w))
          (sortOption (shop w)) (<["name" := text]> (filterOption (shop w)))
          (activeSort (shop w)) text)).
Proof. done. Qed.

Lemma handleReset_run (w : world) :
  handleReset w =
    (inr tt,
     mkWorld (heap w) (console w)
       (mkShop (products (shop w)) (filteredProducts (shop w)) (loading (shop w))
          SortNull ∅ None "")).
Proof. done. Qed.

(** The effect on a state whose [products] names no array: the spread
    throws before anything is allocated. *)
Lemma filterSortEffect_dangling (w : world) :
  heap w !! products (shop w) = None ->
  filterSortEffect w = (inl (TypeError "not an array"), w).
Proof.
  intros HP. unfold filterSortEffect, getShop. unfold_run. simpl. by rewrite HP.
Qed.

Lemma handle_extends_heap (e : event) (w : world) :
  exists new, heap (snd (handle e w)) = heap w ++ new.
Proof.
  destruct e as [token net| |text|key order|]; simpl.
  - rewrite fetchProducts_run. by eexists.
  - destruct (heap w !! products (shop w)) as [P|] eqn:HP.
    + rewrite (filterSortEffect_run _ _ HP).
      destruct (kept_by _ P); by eexists.
    + rewrite (filterSortEffect_dangling _ HP). exists []. by rewrite app_nil_r.
  - exists []. by rewrite app_nil_r.
  - exists []. by rewrite app_nil_r.
  - exists []. by rewrite app_nil_r.
Qed.

Lemma handle_preserves_invariant (e : event) (w : world) :
  page_invariant w -> from_page e -> page_invariant (snd (handle e w)).
Proof.
  intros (Hp & Hf & Hbox & Hkeys & Hsort) He.
  destruct e as [token net| |text|key order|]; simpl.
  - rewrite fetchProducts_run. unfold page_invariant. simpl.
    destruct (fetched token net); simpl; rewrite length_app; simpl;
      repeat split; try done; lia.
  - destruct (lookup_lt_is_Some_2 _ _ Hp) as [P HP].
    rewrite (filterSortEffect_run _ _ HP).
    destruct (kept_by _ P) as [e|kept]; unfold page_invariant; simpl;
      rewrite length_app.
    + repeat split; try done; lia.
    + pose proof (derived_arrays_length (shop w) P kept).
      repeat split; try done; lia.
  - unfold page_invariant. simpl. repeat split; try done.
    + by rewrite lookup_insert_eq.
    + intros k Hk. rewrite lookup_insert_ne; [by apply Hkeys|done].
  - unfold page_invariant. simpl. repeat split; done.
  - unfold page_invariant. simpl. repeat split; done.
Qed.

Lemma reachable_invariant (w : world) : reachable w -> page_invariant w.
Proof.
  induction 1 as [|e w _ IH He].
  - unfold page_invariant. simpl. repeat split; try done; lia.
  - by apply handle_preserves_invariant.
Qed.

(** ** Properties of the page as a whole *)

(** X1: whatever the token and the network do, a fetch attempt ends
    without an exception, leaves [loading] false, writes exactly one line
    to the console, changes no array that existed and touches neither the
    sort nor the filter. *)
Theorem fetch_always_settles (token : option string) (net : network) (w : world) :
  let r := fetchProducts token net w in
  fst r = inr tt /\
  loading (shop (snd r)) = false /\
  console (snd r) = console w ++ [fetch_entry token net (length (heap w))] /\
  (forall l a, heap w !! l = Some a -> heap (snd r) !! l = Some a) /\
  sortOption (shop (snd r)) = sortOption (shop w) /\
  filterOption (shop (snd r)) = filterOption (shop w) /\
  activeSort (shop (snd r)) = activeSort (shop w).
Proof.
  rewrite fetchProducts_run. simpl.
  repeat split; try by destruct (fetched token net).
  intros l a Hl. by apply lookup_app_l_Some.
Qed.

(** X2: an ok response whose body does not parse is a failure like the
    others: the rejection of [response.json()] is caught and logged, no
    array is allocated, [products] and [filteredProducts] stay, [loading]
    is false. *)
Theorem unparseable_body_is_caught (token : option string) (response : Response)
    (w : world) :
  truthy token = true ->
  ok response = true ->
  body response = None ->
  let r := fetchProducts token (Resolves response) w in
  fst r = inr tt /\
  heap (snd r) = heap w /\
  products (shop (snd r)) = products (shop w) /\
  filteredProducts (shop (snd r)) = filteredProducts (shop w) /\
  loading (shop (snd r)) = false /\
  console (snd r)
    = console w ++ [ConsoleError [AString "Error fetching products:";
                                  AException (JsonRejected "Unexpected token")]].
Proof.
  intros Ht Hok Hbody. rewrite fetchProducts_run.
  unfold fetched, fetch_entry. rewrite Ht, Hok, Hbody. simpl.
  by rewrite app_nil_r.
Qed.

(** X3: no event of the page overwrites an array.  Whatever a location
    held before a fetch, a derivation, a keystroke or a click, it holds
    after it, and so after any sequence of them: the in-place sort only
    ever reaches arrays allocated in the same run of the effect. *)
Theorem arrays_are_never_overwritten (es : list event) (w : world) (l : loc)
    (a : list object) :
  heap w !! l = Some a -> heap (run_events es w) !! l = Some a.
Proof.
  revert w. induction es as [|e es IH]; intros w Hl; [done|].
  simpl. apply IH. destruct (handle_extends_heap e w) as [new ->].
  by apply lookup_app_l_Some.
Qed.


(** X5: in every reachable state the search box shows the text the list
    is filtered by (nothing when there is no filter), and the filter holds
    no field but [name]. *)
Theorem search_box_shows_filter (w : world) :
  reachable w ->
  filterRef_value (shop w) = default "" (filterOption (shop w) !! "name") /\
  (forall key, key <> "name" -> filterOption (shop w) !! key = None) /\
  (truthy (filterOption (shop w) !! "name") = true <-> filterRef_value (shop w) <> "").
Proof.
  intros Hr. destruct (reachable_invariant w Hr) as (_ & _ & Hbox & Hkeys & _).
  split; [done|]. split; [done|]. rewrite Hbox.
  destruct (filterOption (shop w) !! "name") as [text|]; simpl; [|done].
  rewrite negb_true_iff, bool_decide_eq_false. done.
Qed.

(** X6: in every reachable state the green button tells the truth.  A
    button is highlighted exactly when the list is sorted by its key in its
    direction, and no button is highlighted exactly when no sort is set. *)
Theorem highlight_matches_sort (w : world) :
  reachable w ->
  (forall key order, (key, order) ∈ sort_buttons ->
     highlighted (activeSort (shop w)) (key, order) = true <->
     sortOption (shop w)
       = SortObject key (if bool_decide (order = "Ascending") then 1 else -1)) /\
  (sort_is_set (sortOption (shop w)) = false <->
   forall button, highlighted (activeSort (shop w)) button = false).
Proof.
  intros Hr. destruct (reachable_invariant w Hr) as (_ & _ & _ & _ & Hsort).
  destruct (activeSort (shop w)) as [[k o]|]; simpl.
  - destruct Hsort as [Hb ->]. split.
    + intros key order Hbutton.
      rewrite andb_true_iff, !bool_decide_eq_true. split.
      * by intros [-> ->].
      * intros [= -> Ho]. split; [done|].
        unfold sort_buttons in Hb, Hbutton.
        repeat (apply elem_of_cons in Hb as [[= _ ->]|Hb]);
          try (by apply elem_of_nil in Hb);
          repeat (apply elem_of_cons in Hbutton as [[= _ ->]|Hbutton]);
          try (by apply elem_of_nil in Hbutton); done.
    + simpl. split; [done|]. intros H. specialize (H (k, o)). simpl in H.
      by rewrite !bool_decide_eq_true_2 in H.
  - split; [|done]. intros key order _.
    destruct (sortOption (shop w)); done.
Qed.

Lemma handle_products (e : event) (w : world) (P : list object) :
  heap w !! products (shop w) = Some P ->
  heap (snd (handle e w)) !! products (shop (snd (handle e w)))
  = Some (match e with
          | Settled token net => default P (fetched token net)
          | _ => P
          end).
Proof.
  intros HP. destruct e as [token net| |text|key order|]; simpl; try done.
  - rewrite fetchProducts_run. simpl.
    destruct (fetched token net) as [data|]; simpl.
    + apply lookup_snoc.
    + by rewrite app_nil_r.
  - rewrite (filterSortEffect_run _ _ HP).
    destruct (kept_by _ P); simpl; by apply lookup_app_l_Some.
Qed.

Lemma handle_loading (e : event) (w : world) :
  loading (shop (snd (handle e w))) = loading (shop w) && negb (is_Settled e).
Proof.
  destruct e as [token net| |text|key order|]; simpl;
    rewrite ?andb_true_r, ?andb_false_r; try done.
  - rewrite fetchProducts_run. simpl. by destruct (fetched token net).
  - destruct (heap w !! products (shop w)) as [P|] eqn:HP.
    + rewrite (filterSortEffect_run _ _ HP). by destruct (kept_by _ P).
    + by rewrite (filterSortEffect_dangling _ HP).
Qed.

(** X7: [products] always holds the body of the last attempt that stored
    one, and the empty list before the first: after any history of events
    from the first render, no derivation, keystroke, click or failed
    attempt has changed what the catalogue is. *)
Theorem products_hold_last_fetched (es : list event) :
  heap (run_events es initialWorld)
    !! products (shop (run_events es initialWorld))
  = Some (last_fetched es).
Proof.
  unfold last_fetched.
  assert (H0 : heap initialWorld !! products (shop initialWorld) = Some [])
    by done.
  revert H0. generalize initialWorld, (@nil object).
  induction es as [|e es IH]; intros w P HP; [done|].
  simpl. apply IH. exact (handle_products e w P HP).
Qed.

(** X8: the skeleton cards show from the first render until the first
    fetch attempt settles, and never come back: after a history of events
    the page shows the twelve placeholders exactly when no attempt has
    settled yet. *)
Theorem skeleton_until_first_settle (es : list event) :
  content (run_events es initialWorld) = inr (Skeletons 12) <->
  Forall (fun e => is_Settled e = false) es.
Proof.
  assert (Hl : forall w, loading (shop (run_events es w)) = true <->
                         loading (shop w) = true /\
                         Forall (fun e => is_Settled e = false) es).
  { induction es as [|e es IH]; intros w; simpl.
    - split; [by split|by intros [? _]].
    - rewrite IH, handle_loading, andb_true_iff, negb_true_iff, Forall_cons.
      tauto. }
  specialize (Hl initialWorld). simpl in Hl.
  unfold content. destruct (loading (shop (run_events es initialWorld))).
  - split; [intros _; by apply Hl|done].
  - split; [|intros H; by pose proof (proj2 Hl (conj eq_refl H))].
    destruct (heap _ !! _); [case_bool_decide|]; done.
Qed.

(** X9: with no filter text the effect completes on any records at all,
    whatever the sort and whether or not the records have the sort key,
    and the derived list is a rearrangement of [products]: sorting loses
    and duplicates nothing. *)
Theorem sort_only_permutes (w : world) (P : list object) :
  heap w !! products (shop w) = Some P ->
  truthy (filterOption (shop w) !! "name") = false ->
  exists (w' : world) (Q : list object),
    filterSortEffect w = (inr tt, w') /\
    heap w' !! filteredProducts (shop w') = Some Q /\
    Q ≡ₚ P.
Proof.
  intros HP Hfo.
  assert (Hkept : kept_by (filterOption (shop w)) P = inr P)
    by (unfold kept_by; by rewrite Hfo).
  destruct (filterSortEffect_returns _ _ _ HP Hkept) as (w' & Hrun & HQ & _).
  exists w', (sorted_by (sortOption (shop w)) P). split; [done|]. split; [done|].
  destruct (sortOption (shop w)); simpl; [done|done|apply sort_elements_perm].
Qed.

Lemma keep_nameMatches_cases (s : string) (P : list object) :
  (Forall has_name P /\ keep (nameMatches s) P = inr (filter (name_contains s) P)) \/
  (~ Forall has_name P /\ exists msg, keep (nameMatches s) P = inl (TypeError msg)).
Proof.
  induction P as [|p P IH].
  - left. by split.
  - destruct (is_string (get p "name")) eqn:Hp.
    + destruct IH as [[HP Hk]|[HP [msg Hk]]].
      * left. assert (Forall has_name (p :: P)) by by constructor.
        split; [done|]. by apply keep_named.
      * right. split; [intros H; by apply Forall_cons in H as [_ H]|].
        exists msg. simpl. rewrite (nameMatches_spec s p Hp). by rewrite Hk.
    + right. split.
      * intros H. apply Forall_cons in H as [H _]. unfold has_name in H. congruence.
      * simpl. unfold nameMatches. revert Hp.
        destruct (get p "name") as [| |b|n|name]; simpl; intros Hp;
          try discriminate Hp; by eexists.
Qed.

(** X10: the effect throws exactly when a filter text is set and some
    record has no string under [name].  What it throws is a TypeError, and
    then [filteredProducts] is not set and the array of [products] is as
    it was. *)
Theorem filter_throws_on_nameless (w : world) (P : list object) :
  heap w !! products (shop w) = Some P ->
  let r := filterSortEffect w in
  (fst r = inr tt <->
   truthy (filterOption (shop w) !! "name") = false \/ Forall has_name P) /\
  (fst r = inr tt \/
   exists msg, fst r = inl (TypeError msg) /\
     filteredProducts (shop (snd r)) = filteredProducts (shop w) /\
     heap (snd r) !! products (shop (snd r)) = Some P).
Proof.
  intros HP. simpl. rewrite (filterSortEffect_run _ _ HP). unfold kept_by.
  destruct (truthy (filterOption (shop w) !! "name")); simpl.
  - destruct (keep_nameMatches_cases
                (default "" (filterOption (shop w) !! "name")) P)
      as [[Hn ->]|[Hn [msg ->]]]; simpl.
    + split; [|by left]. split; [by right|done].
    + split.
      * split; [done|]. by intros [?|?].
      * right. exists msg. split; [done|]. split; [done|].
        by apply lookup_app_l_Some.
  - split; [|by left]. split; [by left|done].
Qed.





Lemma displayed_effect (w : world) (P : list object) :
  heap w !! products (shop w) = Some P ->
  displayed filterSortEffect w =
    match kept_by (filterOption (shop w)) P with
    | inl e => inl e
    | inr kept => inr (sorted_by (sortOption (shop w)) kept)
    end.
Proof.
  intros HP. unfold displayed. rewrite (filterSortEffect_run _ _ HP).
  destruct (kept_by _ P) as [e|kept]; [done|]. cbn zeta.
  cbn [heap shop filteredProducts]. by rewrite derived_arrays_last.
Qed.

Lemma displayed_seq {A} (m : M A) (k : M unit) (w w1 : world) (a : A) :
  m w = (inr a, w1) -> displayed (m;; k) w = displayed k w1.
Proof. intros H. unfold displayed. by rewrite (run_seq m k w w1 a H). Qed.

(** X12: running the effect a second time changes nothing that shows:
    the list displayed after two runs is the list displayed after one (or
    the same exception). *)
Theorem derive_twice (w : world) (P : list object) :
  heap w !! products (shop w) = Some P ->
  displayed (filterSortEffect;; filterSortEffect) w = displayed filterSortEffect w.
Proof.
  intros HP. rewrite (displayed_effect w P HP).
  destruct (kept_by (filterOption (shop w)) P) as [e|kept] eqn:Hkept.
  - unfold displayed, mbind, M_bind.
    by rewrite (filterSortEffect_run _ _ HP), Hkept.
  - set (w1 := mkWorld (heap w ++ derived_arrays (shop w) P kept) (console w)
                 (mkShop (products (shop w))
                    (length (heap w) + length (derived_arrays (shop w) P kept) - 1)%nat
                    (loading (shop w)) (sortOption (shop w))
                    (filterOption (shop w)) (activeSort (shop w))
                    (filterRef_value (shop w)))).
    assert (Hrun : filterSortEffect w = (inr tt, w1))
      by (by rewrite (filterSortEffect_run _ _ HP), Hkept).
    assert (HP1 : heap w1 !! products (shop w1) = Some P)
      by (by apply lookup_app_l_Some).
    rewrite (displayed_seq _ _ _ _ _ Hrun), (displayed_effect w1 P HP1).
    simpl. by rewrite Hkept.
Qed.

(** X13: the filter reads [name] and nothing else.  Setting any other
    field of [filterOption] through [handleFilter] leaves the displayed
    list as it would have been. *)
Theorem other_filter_keys_ignored (w : world) (P : list object)
    (key value : string) :
  heap w !! products (shop w) = Some P ->
  key <> "name" ->
  displayed (handleFilter key value;; filterSortEffect) w
  = displayed filterSortEffect w.
Proof.
  intros HP Hkey.
  set (w1 := mkWorld (heap w) (console w)
               (mkShop (products (shop w)) (filteredProducts (shop w))
                  (loading (shop w)) (sortOption (shop w))
                  (<[key := value]> (filterOption (shop w)))
                  (activeSort (shop w)) (filterRef_value (shop w)))).
  rewrite (displayed_seq (handleFilter key value) filterSortEffect w w1 tt) by done.
  rewrite (displayed_effect w1 P HP), (displayed_effect w P HP).
  unfold kept_by. simpl. by rewrite lookup_insert_ne.
Qed.

(** X14: the last choice wins.  A second sort click replaces the first,
    a second text replaces the first, and a reset after any sort click and
    any text is a reset: the displayed list is that of the last choice
    alone. *)
Theorem last_choice_wins (w : world) (k1 o1 k2 o2 s t : string) :
  displayed (handleSort k1 o1;; handleSort k2 o2;; filterSortEffect) w
  = displayed (handleSort k2 o2;; filterSortEffect) w /\
  displayed (onChange s;; onChange t;; filterSortEffect) w
  = displayed (onChange t;; filterSortEffect) w /\
  displayed (handleSort k1 o1;; onChange s;; handleReset;; filterSortEffect) w
  = displayed (handleReset;; filterSortEffect) w.
Proof.
  split; [|split].
  - rewrite (displayed_seq _ _ _ _ _ (handleSort_run k1 o1 w)).
    by rewrite !(displayed_seq _ _ _ _ _ (handleSort_run _ _ _)).
  - rewrite (displayed_seq _ _ _ _ _ (onChange_run s w)).
    rewrite !(displayed_seq _ _ _ _ _ (onChange_run _ _)). simpl.
    by rewrite insert_insert_eq.
  - rewrite (displayed_seq _ _ _ _ _ (handleSort_run k1 o1 w)).
    rewrite (displayed_seq _ _ _ _ _ (onChange_run s _)).
    by rewrite !(displayed_seq _ _ _ _ _ (handleReset_run _)).
Qed.


(** X16: with an empty catalogue and the loading flag cleared, the effect
    completes under every filter and every sort, and the page shows the
    "no products" graphic. *)
Theorem empty_catalogue_shows_no_products (w : world) :
  heap w !! products (shop w) = Some [] ->
  loading (shop w) = false ->
  fst (filterSortEffect w) = inr tt /\
  content (snd (filterSortEffect w)) = inr NoProducts.
Proof.
  intros HP Hl.
  assert (Hkept : kept_by (filterOption (shop w)) [] = inr [])
    by (unfold kept_by; by destruct (truthy _)).
  rewrite (filterSortEffect_run _ _ HP), Hkept. cbn zeta. split; [done|].
  unfold content. cbn [snd shop loading heap filteredProducts].
  rewrite Hl, derived_arrays_last. by destruct (sortOption (shop w)).
Qed.

(** ** Order across the whole list *)

Lemma string_compare_le_trans (a b c : string) :
  String.compare a b <> Gt -> String.compare b c <> Gt -> String.compare a c <> Gt.
Proof.
  revert b c. induction a as [|x a IH]; intros [|y b] [|z c]; simpl; try done.
  destruct (Ascii.compare x y) eqn:E1; [| |done];
    destruct (Ascii.compare y z) eqn:E2; try done; intros H1 H2.
  - apply Ascii.compare_eq_iff in E1 as ->. rewrite E2. by apply (IH b).
  - apply Ascii.compare_eq_iff in E1 as ->. by rewrite E2.
  - apply Ascii.compare_eq_iff in E2 as <-. by rewrite E1.
  - assert (Ascii.compare x z = Lt) as ->; [|done].
    unfold Ascii.compare in *. rewrite N.compare_lt_iff in *. lia.
Qed.

Lemma string_ltb_false_trans (s t u : string) :
  String.ltb t s = false -> String.ltb u t = false -> String.ltb u s = false.
Proof.
  unfold String.ltb. intros H1 H2.
  pose proof (string_compare_le_trans s t u) as H.
  rewrite (String.compare_antisym t s) in H1.
  rewrite (String.compare_antisym u t) in H2.
  rewrite (String.compare_antisym u s).
  destruct (String.compare s t), (String.compare t u); try done;
    destruct (String.compare s u); try done; by exfalso; apply H.
Qed.

Lemma Number_lessThan_false_trans (x y z : number) :
  Number_lessThan y x = Some false -> Number_lessThan z y = Some false ->
  Number_lessThan z x = Some false.
Proof.
  destruct x as [| |p|], y as [| |q|], z as [| |r|]; simpl; try done.
  intros [= H1] [= H2]. f_equal.
  apply negb_false_iff in H1, H2. apply negb_false_iff.
  apply Qle_bool_iff in H1, H2. apply Qle_bool_iff. by eapply Qle_trans.
Qed.

Lemma js_le_trans (x y z : value) :
  same_kind x y = true -> same_kind y z = true ->
  js_le x y = true -> js_le y z = true -> js_le x z = true.
Proof.
  unfold same_kind, js_le.
  destruct x as [| | |n|s], y as [| | |m|t], z as [| | |k|u];
    cbn [IsLessThan ToNumber is_string is_numeric];
    rewrite ?andb_false_r, ?andb_false_l; try done; intros _ _.
  - intros H1 H2.
    destruct (Number_lessThan m n) as [[]|] eqn:E1; try done.
    destruct (Number_lessThan k m) as [[]|] eqn:E2; try done.
    by rewrite (Number_lessThan_false_trans n m k E1 E2).
  - intros H1 H2.
    destruct (String.ltb t s) eqn:E1; try done.
    destruct (String.ltb u t) eqn:E2; try done.
    by rewrite (string_ltb_false_trans s t u E1 E2).
Qed.

Lemma Sorted_StronglySorted_on {A} (R : A -> A -> Prop) (ok : A -> Prop)
    (l : list A) :
  (forall x y z, ok x -> ok y -> ok z -> R x y -> R y z -> R x z) ->
  Forall ok l -> Sorted R l -> StronglySorted R l.
Proof.
  intros Htrans Hok Hs. induction Hs as [|x l Hs IH Hhd]; [constructor|].
  apply Forall_cons in Hok as [Hx Hok]. specialize (IH Hok).
  constructor; [done|].
  destruct Hhd as [|y l' Hxy]; [constructor|].
  apply StronglySorted_inv in IH as [_ Hy].
  apply Forall_cons in Hok as [Hy' Hok]. constructor; [done|].
  rewrite Forall_forall in Hy, Hok |- *. intros z Hz.
  apply (Htrans x y z); auto.
Qed.

Lemma StronglySorted_pair {A} (R : A -> A -> Prop) (l : list A) (i j : nat)
    (a b : A) :
  StronglySorted R l -> (i < j)%nat -> l !! i = Some a -> l !! j = Some b -> R a b.
Proof.
  intros Hs. revert i j. induction Hs as [|x l Hs IH Hall]; intros i j Hij Ha Hb;
    [done|].
  destruct j as [|j]; [lia|]. destruct i as [|i]; simpl in *.
  - injection Ha as ->. rewrite Forall_forall in Hall. apply Hall.
    by eapply list_elem_of_lookup_2.
  - apply (IH i j); [lia|done..].
Qed.

(** The sorted selection is in order under the key, every pair of it. *)
Lemma sort_elements_StronglySorted (key : string) (ascending : bool)
    (L : list object) :
  Forall (fun p => is_Product p = true) L ->
  key ∈ sort_keys ->
  StronglySorted
    (fun a b => (if ascending then js_le (get a key) (get b key)
                 else js_ge (get a key) (get b key)) = true)
    (sort_elements (comparefn key (if ascending then 1 else -1)) L).
Proof.
  intros Hty Hkey.
  apply (Sorted_StronglySorted_on _ (fun p => is_Product p = true)).
  - intros x y z Hx Hy Hz.
    pose proof (Product_same_kind x y key Hx Hy Hkey) as Kxy.
    pose proof (Product_same_kind y z key Hy Hz Hkey) as Kyz.
    pose proof (Product_same_kind z y key Hz Hy Hkey) as Kzy.
    pose proof (Product_same_kind y x key Hy Hx Hkey) as Kyx.
    destruct ascending; [by apply js_le_trans|].
    intros Gxy Gyz. by apply (js_le_trans (get z key) (get y key) (get x key)).
  - rewrite Forall_forall in Hty |- *. intros p Hp. apply Hty.
    by rewrite <- (sort_elements_perm (comparefn key (if ascending then 1 else -1)) L).
  - apply (sort_elements_Sorted _ _ (fun p => is_Product p = true)); [| |done].
    + intros x y Hx Hy Hc.
      pose proof (Product_same_kind y x key Hy Hx Hkey) as Hk.
      pose proof (Product_same_kind x y key Hx Hy Hkey) as Hk'.
      destruct (same_kind_defined _ _ Hk) as [r Hr].
      destruct (same_kind_defined _ _ Hk') as [r' Hr'].
      destruct ascending.
      * rewrite comparefn_ascending in Hc. unfold js_gt, js_le in *.
        rewrite Hr in *. by destruct r.
      * rewrite comparefn_descending in Hc by done. unfold js_lt, js_ge in *.
        rewrite Hr' in *. by destruct r'.
    + intros x y Hx Hy Hc.
      pose proof (Product_same_kind y x key Hy Hx Hkey) as Hk.
      pose proof (Product_same_kind x y key Hx Hy Hkey) as Hk'.
      destruct ascending.
      * rewrite comparefn_ascending in Hc. unfold js_gt, js_le in *.
        destruct (IsLessThan (get y key) (get x key)) as [[]|] eqn:Hr;
          simpl in Hc; try (exfalso; apply Hc; lia).
        by rewrite (same_kind_asym _ _ Hk Hr).
      * rewrite comparefn_descending in Hc by done. unfold js_lt, js_ge in *.
        destruct (IsLessThan (get x key) (get y key)) as [[]|] eqn:Hr;
          simpl in Hc; try (exfalso; apply Hc; lia).
        by rewrite (same_kind_asym _ _ Hk' Hr).
Qed.

Lemma kept_by_Products (fo : gmap string string) (P : list object) :
  Forall (fun p => is_Product p = true) P ->
  exists kept, kept_by fo P = inr kept /\ sublist kept P /\
               Forall (fun p => is_Product p = true) kept.
Proof.
  intros Hty.
  assert (Hnamed : Forall has_name P).
  { eapply Forall_impl; [exact Hty|]. intros p Hp. unfold has_name.
    unfold is_Product in Hp. rewrite !andb_true_iff in Hp. tauto. }
  assert (Hsub : exists kept, kept_by fo P = inr kept /\ sublist kept P).
  { unfold kept_by. destruct (truthy _).
    - rewrite (keep_named _ _ Hnamed). eexists. split; [done|].
      apply sublist_filter.
    - by exists P. }
  destruct Hsub as (kept & Hkept & Hsub). exists kept.
  split; [done|]. split; [done|].
  rewrite Forall_forall in Hty |- *. intros p Hp. apply Hty.
  by apply (elem_of_sublist kept P).
Qed.

(** X18: on a list of Products sorted by one of the four keys, the
    displayed list is in order throughout, not only pair by neighbouring
    pair: whenever one product is shown before another, its key is not
    above (ascending) or not below (descending) the other's. *)
Theorem sorted_all_pairs (w : world) (P : list object) (key : string)
    (ascending : bool) :
  heap w !! products (shop w) = Some P ->
  Forall (fun p => is_Product p = true) P ->
  key ∈ sort_keys ->
  sortOption (shop w) = SortObject key (if ascending then 1 else -1) ->
  exists Q : list object,
    displayed filterSortEffect w = inr Q /\
    forall (i j : nat) (a b : object),
      (i < j)%nat -> Q !! i = Some a -> Q !! j = Some b ->
      (if ascending then js_le (get a key) (get b key)
       else js_ge (get a key) (get b key)) = true.
Proof.
  intros HP Hty Hkey Hso.
  destruct (kept_by_Products (filterOption (shop w)) P Hty)
    as (kept & Hkept & _ & Hty').
  rewrite (displayed_effect w P HP), Hkept, Hso. eexists. split; [done|].
  intros i j a b Hij Ha Hb. simpl in Ha, Hb.
  exact (StronglySorted_pair _ _ i j a b
           (sort_elements_StronglySorted key ascending kept Hty' Hkey) Hij Ha Hb).
Qed.

(** X19: when any two different products of the catalogue differ under
    the key, the descending list is the ascending list read backwards. *)
Theorem descending_reverses_ascending (w : world) (P : list object)
    (key : string) :
  heap w !! products (shop w) = Some P ->
  Forall (fun p => is_Product p = true) P ->
  key ∈ sort_keys ->
  (forall a b, a ∈ P -> b ∈ P ->
     a = b \/
     js_lt (get a key) (get b key) = true \/ js_lt (get b key) (get a key) = true) ->
  exists up down : list object,
    displayed (handleSort key "Ascending";; filterSortEffect) w = inr up /\
    displayed (handleSort key "Descending";; filterSortEffect) w = inr down /\
    down = reverse up.
Proof.
  intros HP Hty Hkey Hdistinct.
  destruct (kept_by_Products (filterOption (shop w)) P Hty)
    as (kept & Hkept & Hsub & Hty').
  rewrite !(displayed_seq _ _ _ _ _ (handleSort_run _ _ _)).
  rewrite !(displayed_effect _ P) by done. simpl. rewrite Hkept. simpl.
  eexists _, _. split; [done|]. split; [done|].
  pose proof (sort_elements_StronglySorted key true kept Hty' Hkey) as Hup.
  pose proof (sort_elements_StronglySorted key false kept Hty' Hkey) as Hdown.
  simpl in Hup, Hdown.
  set (up := sort_elements (comparefn key 1) kept) in *.
  set (down := sort_elements (comparefn key (-1)) kept) in *.
  rewrite <- (reverse_involutive down). f_equal.
  apply (StronglySorted_unique_strong
           (fun a b => js_le (get a key) (get b key) = true)).
  - intros a b Ha Hb Hab Hba.
    assert (Hin : forall x, x ∈ kept -> x ∈ P)
      by (intros x Hx; by apply (elem_of_sublist kept P)).
    rewrite elem_of_reverse in Ha.
    unfold up, down in Ha, Hb.
    rewrite sort_elements_perm in Ha, Hb.
    unfold js_le, js_lt in *.
    destruct (Hdistinct a b (Hin a Ha) (Hin b Hb)) as [H|[H|H]]; [done| |].
    + destruct (IsLessThan (get a key) (get b key)) as [[]|]; done.
    + destruct (IsLessThan (get b key) (get a key)) as [[]|]; done.
  - clear -Hdown. induction Hdown as [|x l Hs IH Hall].
    + constructor.
    + rewrite reverse_cons. apply StronglySorted_app_2; [|done|repeat constructor].
      intros a b Ha Hb. apply list_elem_of_singleton in Hb as ->.
      rewrite elem_of_reverse in Ha. rewrite Forall_forall in Hall.
      specialize (Hall a Ha). unfold js_ge, js_le in *. done.
  - done.
  - unfold up, down. rewrite reverse_Permutation, !sort_elements_perm. done.
Qed.

End Shop.

(** ** Properties of the popup *)

(** X17: after any sequence of add-to-cart clicks and closings, the cart
    has been handed exactly the products added, in order; the popup is
    open exactly when the last event was an add; and once something has
    been added it shows the image and the name of the product added last,
    whether open or closed: a new add overwrites the one on display. *)
Theorem popup_shows_last_added (es : list popup_event) :
  let w := foldl popup_handle initialPopup es in
  handed_to_cart w = omap added es /\
  (showPopup (popup w) = true <-> exists es' p, es = es' ++ [AddClicked p]) /\
  (forall p, last (omap added es) = Some p ->
     popupImage (popup w) = get p "imageUrl" /\
     popupName (popup w) = get p "name").
Proof.
  induction es as [|e es IH] using rev_ind; simpl.
  - split; [done|]. split; [|done].
    split; [done|]. intros (es' & p & H). by destruct es'.
  - rewrite foldl_app, omap_app. simpl. destruct IH as (Hcart & Hshow & Hlast).
    destruct e as [p|]; simpl.
    + rewrite Hcart. split; [done|]. split; [split; [by eexists _, _|done]|].
      intros q. rewrite last_snoc. by intros [= ->].
    + rewrite app_nil_r. split; [done|]. split; [|done].
      split; [done|]. intros (es' & p & H).
      by apply app_inj_tail in H as [_ ?].
Qed.

(** ** The properties at concrete inputs *)

Lemma comparefn_never_zero_at_undefined :
  (-1 <> 1 /\
   get (∅ : object) "price" = get (∅ : object) "price" /\
   IsLessThan no_numeric_strings (get ∅ "price") (get ∅ "price") = None) /\
  comparefn no_numeric_strings "price" (-1) ∅ ∅ <> 0 /\
  (comparefn no_numeric_strings "price" (-1) ∅ ∅ = 1 <->
     js_lt no_numeric_strings (get ∅ "price") (get ∅ "price") = true) /\
  comparefn no_numeric_strings "price" (-1) ∅ ∅ = -1.
Proof.
  assert (H1 : -1 <> 1) by lia.
  assert (H2 : get (∅ : object) "price" = get (∅ : object) "price") by reflexivity.
  assert (H3 : IsLessThan no_numeric_strings (get ∅ "price") (get ∅ "price") = None)
    by reflexivity.
  destruct (comparefn_never_zero no_numeric_strings "price" (-1) ∅ ∅)
    as (Hnz & _ & _ & Hdesc & Heq & Hundef).
  split; [by repeat split|]. split; [exact Hnz|].
  split; [exact (proj1 (Hdesc H1))|exact (Hundef H3)].
Defined.

Lemma sorted_adjacent_pairs_on_catalogue :
  (heap (shelf (SortObject "price" 1) ∅)
     !! products (shop (shelf (SortObject "price" 1) ∅)) = Some catalogue /\
   Forall (fun p => is_Product p = true) catalogue /\
   "price" ∈ sort_keys /\
   sortOption (shop (shelf (SortObject "price" 1) ∅)) = SortObject "price" 1) /\
  exists (w' : world) (kept Q : list object),
    filterSortEffect no_numeric_strings (shelf (SortObject "price" 1) ∅)
      = (inr tt, w') /\
    heap w' !! filteredProducts (shop w') = Some Q /\
    kept_by (filterOption (shop (shelf (SortObject "price" 1) ∅))) catalogue
      = inr kept /\
    Q ≡ₚ kept /\
    forall (i : nat) (a b : object),
      Q !! i = Some a -> Q !! S i = Some b ->
      js_le no_numeric_strings (get a "price") (get b "price") = true.
Proof.
  assert (H1 : heap (shelf (SortObject "price" 1) ∅)
                 !! products (shop (shelf (SortObject "price" 1) ∅))
               = Some catalogue) by reflexivity.
  assert (H2 : Forall (fun p => is_Product p = true) catalogue)
    by (repeat constructor).
  assert (H3 : "price" ∈ sort_keys) by (repeat constructor).
  assert (H4 : sortOption (shop (shelf (SortObject "price" 1) ∅))
               = SortObject "price" 1) by reflexivity.
  split; [by repeat split|].
  exact (sorted_adjacent_pairs no_numeric_strings _ catalogue "price" true
           H1 H2 H3 H4).
Defined.

Lemma reset_restores_products_on_catalogue :
  heap (shelf (SortObject "name" (-1)) {[ "name" := "ric" ]})
    !! products (shop (shelf (SortObject "name" (-1)) {[ "name" := "ric" ]}))
  = Some catalogue /\
  exists w' : world,
    (handleReset;; filterSortEffect no_numeric_strings)
      (shelf (SortObject "name" (-1)) {[ "name" := "ric" ]}) = (inr tt, w') /\
    filterOption (shop w') = ∅ /\
    sortOption (shop w') = SortNull /\
    heap w' !! products (shop w') = Some catalogue /\
    heap w' !! filteredProducts (shop w') = Some catalogue.
Proof.
  assert (H1 : heap (shelf (SortObject "name" (-1)) {[ "name" := "ric" ]})
                 !! products (shop (shelf (SortObject "name" (-1))
                                      {[ "name" := "ric" ]}))
               = Some catalogue) by reflexivity.
  split; [exact H1|].
  exact (reset_restores_products no_numeric_strings _ catalogue H1).
Defined.

Lemma name_filter_ignores_case_on_oranges :
  (heap (shelf SortUndefined ∅) !! 2%nat = Some catalogue /\
   Forall has_name catalogue /\
   ({[ "name" := "E" ]} : gmap string string) !! "name" = Some "E" /\
   "E" <> "" /\
   heap (mkWorld [[orange; orange_orange]] [] (shop initialWorld))
     !! products (shop (mkWorld [[orange; orange_orange]] [] (shop initialWorld)))
   = Some [orange; orange_orange] /\
   sort_is_set
     (sortOption (shop (mkWorld [[orange; orange_orange]] [] (shop initialWorld))))
   = false /\
   toLowerCase "oRaNGE" = "orange" /\
   truthy
     (filterOption (shop (mkWorld [[orange; orange_orange]] [] (shop initialWorld)))
        !! "name") = false) /\
  elements_of (filterByName {[ "name" := "E" ]} 2%nat) (shelf SortUndefined ∅)
    = inr (filter (name_contains "E") catalogue) /\
  (exists w' : world,
     (handleFilter "name" "oRaNGE";; filterSortEffect no_numeric_strings)
       (mkWorld [[orange; orange_orange]] [] (shop initialWorld)) = (inr tt, w') /\
     heap w' !! filteredProducts (shop w') = Some [orange; orange_orange]) /\
  (exists w' : world,
     (handleSort "price" "Descending";; filterSortEffect no_numeric_strings)
       (mkWorld [[orange; orange_orange]] [] (shop initialWorld)) = (inr tt, w') /\
     heap w' !! filteredProducts (shop w') = Some [orange_orange; orange]).
Proof.
  assert (H1 : heap (shelf SortUndefined ∅) !! 2%nat = Some catalogue)
    by reflexivity.
  assert (H2 : Forall has_name catalogue) by (repeat constructor).
  assert (H3 : ({[ "name" := "E" ]} : gmap string string) !! "name" = Some "E")
    by reflexivity.
  assert (H4 : "E" <> "") by discriminate.
  assert (H5 : heap (mkWorld [[orange; orange_orange]] [] (shop initialWorld))
                 !! products (shop (mkWorld [[orange; orange_orange]] []
                                      (shop initialWorld)))
               = Some [orange; orange_orange]) by reflexivity.
  assert (H6 : sort_is_set
                 (sortOption (shop (mkWorld [[orange; orange_orange]] []
                                      (shop initialWorld)))) = false)
    by reflexivity.
  assert (H7 : toLowerCase "oRaNGE" = "orange") by reflexivity.
  assert (H8 : truthy
                 (filterOption (shop (mkWorld [[orange; orange_orange]] []
                                        (shop initialWorld))) !! "name") = false)
    by reflexivity.
  destruct (name_filter_ignores_case no_numeric_strings) as (Hkeep & Hcase & Hsort).
  split; [by repeat split|].
  split; [exact (Hkeep _ 2%nat catalogue _ "E" H1 H2 H3 H4)|].
  split; [exact (Hcase _ "oRaNGE" H5 H6 H7)|exact (Hsort _ H5 H8)].
Defined.

Lemma effect_does_not_mutate_catalogue :
  heap (shelf (SortObject "price" (-1)) {[ "name" := "e" ]})
    !! products (shop (shelf (SortObject "price" (-1)) {[ "name" := "e" ]}))
  = Some catalogue /\
  let w := shelf (SortObject "price" (-1)) {[ "name" := "e" ]} in
  let r := filterSortEffect no_numeric_strings w in
  products (shop (snd r)) = products (shop w) /\
  heap (snd r) !! products (shop (snd r)) = Some catalogue /\
  (forall l, (l < length (heap w))%nat -> heap (snd r) !! l = heap w !! l) /\
  ((exists e, fst r = inl e /\
      filteredProducts (shop (snd r)) = filteredProducts (shop w)) \/
   (fst r = inr tt /\
      heap w !! filteredProducts (shop (snd r)) = None /\
      is_Some (heap (snd r) !! filteredProducts (shop (snd r))) /\
      filteredProducts (shop (snd r)) <> products (shop w))).
Proof.
  assert (H1 : heap (shelf (SortObject "price" (-1)) {[ "name" := "e" ]})
                 !! products (shop (shelf (SortObject "price" (-1))
                                      {[ "name" := "e" ]}))
               = Some catalogue) by reflexivity.
  split; [exact H1|].
  exact (effect_does_not_mutate_products no_numeric_strings _ catalogue H1).
Defined.

Lemma empty_name_is_no_filter_on_catalogue :
  (heap (shelf SortNull {[ "name" := "ap" ]})
     !! products (shop (shelf SortNull {[ "name" := "ap" ]})) = Some catalogue /\
   sort_is_set (sortOption (shop (shelf SortNull {[ "name" := "ap" ]}))) = false /\
   ({[ "name" := "" ]} : gmap string string) !! "name" = Some "") /\
  filterByName {[ "name" := "" ]} 2%nat initialWorld = (inr 2%nat, initialWorld) /\
  exists w' : world,
    (handleFilter "name" "";; filterSortEffect no_numeric_strings)
      (shelf SortNull {[ "name" := "ap" ]}) = (inr tt, w') /\
    filterOption (shop w') !! "name" = Some "" /\
    heap w' !! filteredProducts (shop w') = Some catalogue.
Proof.
  assert (H1 : heap (shelf SortNull {[ "name" := "ap" ]})
                 !! products (shop (shelf SortNull {[ "name" := "ap" ]}))
               = Some catalogue) by reflexivity.
  assert (H2 : sort_is_set (sortOption (shop (shelf SortNull {[ "name" := "ap" ]})))
               = false) by reflexivity.
  assert (H3 : ({[ "name" := "" ]} : gmap string string) !! "name" = Some "")
    by reflexivity.
  destruct (empty_name_is_no_filter no_numeric_strings _ catalogue H1 H2)
    as [Hskip Hrun].
  split; [by repeat split|].
  split; [exact (Hskip _ 2%nat initialWorld H3)|exact Hrun].
Defined.

Lemma failed_fetch_on_first_render :
  fails (Some "token") (Resolves unauthorized) /\
  let r := fetchProducts (Some "token") (Resolves unauthorized) initialWorld in
  fst r = inr tt /\
  products (shop (snd r)) = products (shop initialWorld) /\
  filteredProducts (shop (snd r)) = filteredProducts (shop initialWorld) /\
  heap (snd r) = heap initialWorld /\
  loading (shop (snd r)) = false /\
  loading (shop initialWorld) = true /\
  loading (shop (snd r)) <> loading (shop initialWorld).
Proof.
  assert (H1 : fails (Some "token") (Resolves unauthorized))
    by (apply non_2xx; reflexivity).
  assert (H2 : loading (shop initialWorld) = true) by reflexivity.
  destruct (failed_fetch_keeps_products (Some "token") (Resolves unauthorized)
              initialWorld H1) as (R1 & R2 & R3 & R4 & R5 & R6 & R7).
  split; [exact H1|].
  repeat split; try assumption. exact (R7 H2).
Defined.

Lemma failed_fetch_logs_on_shelf :
  (fails None (Resolves ok_response) /\
   heap (shelf SortUndefined ∅) !! products (shop (shelf SortUndefined ∅))
   = Some catalogue) /\
  let w' := snd (fetchProducts None (Resolves ok_response) (shelf SortUndefined ∅)) in
  (exists args, console w' = console (shelf SortUndefined ∅) ++ [ConsoleError args]) /\
  heap w' !! products (shop w') = Some catalogue.
Proof.
  assert (H1 : fails None (Resolves ok_response))
    by (apply missing_token; reflexivity).
  assert (H2 : heap (shelf SortUndefined ∅)
                 !! products (shop (shelf SortUndefined ∅)) = Some catalogue)
    by reflexivity.
  split; [by split|].
  exact (failed_fetch_logs_and_keeps_list None (Resolves ok_response)
           (shelf SortUndefined ∅) catalogue H1 H2).
Defined.

Lemma successful_fetch_on_first_render :
  (truthy (Some "token") = true /\
   ok ok_response = true /\
   body ok_response = Some catalogue) /\
  let r := fetchProducts (Some "token") (Resolves ok_response) initialWorld in
  fst r = inr tt /\
  heap (snd r) = heap initialWorld ++ [catalogue] /\
  products (shop (snd r)) = length (heap initialWorld) /\
  filteredProducts (shop (snd r)) = length (heap initialWorld) /\
  heap (snd r) !! products (shop (snd r)) = Some catalogue /\
  heap (snd r) !! filteredProducts (shop (snd r)) = Some catalogue /\
  loading (shop (snd r)) = false.
Proof.
  assert (H1 : truthy (Some "token") = true) by reflexivity.
  assert (H2 : ok ok_response = true) by reflexivity.
  assert (H3 : body ok_response = Some catalogue) by reflexivity.
  split; [by repeat split|].
  exact (successful_fetch_replaces_both (Some "token") ok_response catalogue
           initialWorld H1 H2 H3).
Defined.

(** C4 as stated fails: once the catalogue has been fetched, an attempt
    that the server refuses leaves the three products in the list. *)
Lemma failed_fetch_leaves_list_stocked :
  snd (fetchProducts (Some "token") (Resolves ok_response) initialWorld)
    = shelf SortUndefined ∅ /\
  fails (Some "expired") (Resolves unauthorized) /\
  let w' := snd (fetchProducts (Some "expired") (Resolves unauthorized)
                   (shelf SortUndefined ∅)) in
  heap w' !! products (shop w') = Some [rice; apple; eggs] /\
  heap w' !! products (shop w') <> Some [].
Proof.
  split; [reflexivity|]. split; [apply non_2xx; reflexivity|].
  split; [reflexivity|discriminate].
Qed.

(** ** The properties of the page at concrete inputs *)

Lemma fetch_always_settles_on_shelf :
  heap (shelf SortUndefined ∅) !! 2%nat = Some catalogue /\
  let r := fetchProducts (Some "token") (Rejects "offline") (shelf SortUndefined ∅) in
  fst r = inr tt /\
  loading (shop (snd r)) = false /\
  console (snd r)
    = console (shelf SortUndefined ∅)
      ++ [fetch_entry (Some "token") (Rejects "offline")
            (length (heap (shelf SortUndefined ∅)))] /\
  heap (snd r) !! 2%nat = Some catalogue.
Proof.
  assert (H1 : heap (shelf SortUndefined ∅) !! 2%nat = Some catalogue)
    by reflexivity.
  destruct (fetch_always_settles (Some "token") (Rejects "offline")
              (shelf SortUndefined ∅)) as (R1 & R2 & R3 & R4 & _).
  split; [exact H1|]. cbv zeta.
  split; [exact R1|]. split; [exact R2|]. split; [exact R3|].
  exact (R4 2%nat catalogue H1).
Defined.

Lemma unparseable_body_on_first_render :
  (truthy (Some "token") = true /\
   ok (mkResponse true "OK" None) = true /\
   body (mkResponse true "OK" None) = None) /\
  let r := fetchProducts (Some "token") (Resolves (mkResponse true "OK" None))
             initialWorld in
  fst r = inr tt /\
  heap (snd r) = heap initialWorld /\
  products (shop (snd r)) = products (shop initialWorld) /\
  filteredProducts (shop (snd r)) = filteredProducts (shop initialWorld) /\
  loading (shop (snd r)) = false /\
  console (snd r)
    = console initialWorld
      ++ [ConsoleError [AString "Error fetching products:";
                        AException (JsonRejected "Unexpected token")]].
Proof.
  assert (H1 : truthy (Some "token") = true) by reflexivity.
  assert (H2 : ok (mkResponse true "OK" None) = true) by reflexivity.
  assert (H3 : body (mkResponse true "OK" None) = None) by reflexivity.
  split; [by repeat split|].
  exact (unparseable_body_is_caught (Some "token") (mkResponse true "OK" None)
           initialWorld H1 H2 H3).
Defined.

Lemma arrays_are_never_overwritten_on_shelf :
  heap (shelf SortUndefined ∅) !! 2%nat = Some catalogue /\
  heap (run_events no_numeric_strings
          [SortClicked "price" "Descending"; Derived; Typed "e"; Derived]
          (shelf SortUndefined ∅)) !! 2%nat = Some catalogue.
Proof.
  assert (H1 : heap (shelf SortUndefined ∅) !! 2%nat = Some catalogue)
    by reflexivity.
  split; [exact H1|].
  exact (arrays_are_never_overwritten no_numeric_strings
           [SortClicked "price" "Descending"; Derived; Typed "e"; Derived]
           (shelf SortUndefined ∅) 2%nat catalogue H1).
Defined.

Lemma reachable_after_typing :
  reachable no_numeric_strings
    (snd (handle no_numeric_strings (Typed "ap") initialWorld)).
Proof.
  exact (reachable_event no_numeric_strings (Typed "ap") initialWorld
           (reachable_first_render no_numeric_strings) I).
Defined.

Lemma reachable_after_sort_click :
  reachable no_numeric_strings
    (snd (handle no_numeric_strings (SortClicked "type" "Descending") initialWorld)).
Proof.
  refine (reachable_event no_numeric_strings (SortClicked "type" "Descending")
            initialWorld (reachable_first_render no_numeric_strings) _).
  simpl. repeat constructor.
Defined.


Lemma search_box_shows_filter_after_typing :
  reachable no_numeric_strings
    (snd (handle no_numeric_strings (Typed "ap") initialWorld)) /\
  "type" <> "name" /\
  filterRef_value (shop (snd (handle no_numeric_strings (Typed "ap") initialWorld)))
  = default ""
      (filterOption (shop (snd (handle no_numeric_strings (Typed "ap")
                                  initialWorld))) !! "name") /\
  filterOption (shop (snd (handle no_numeric_strings (Typed "ap") initialWorld)))
    !! "type" = None /\
  (truthy (filterOption (shop (snd (handle no_numeric_strings (Typed "ap")
                                      initialWorld))) !! "name") = true <->
   filterRef_value (shop (snd (handle no_numeric_strings (Typed "ap")
                                 initialWorld))) <> "").
Proof.
  assert (H1 : "type" <> "name") by discriminate.
  destruct (search_box_shows_filter no_numeric_strings _ reachable_after_typing)
    as (R1 & R2 & R3).
  split; [exact reachable_after_typing|]. split; [exact H1|].
  split; [exact R1|]. split; [exact (R2 "type" H1)|exact R3].
Defined.

Lemma highlight_matches_sort_after_click :
  (reachable no_numeric_strings
     (snd (handle no_numeric_strings (SortClicked "type" "Descending")
             initialWorld)) /\
   ("type", "Descending") ∈ sort_buttons) /\
  (highlighted
     (activeSort (shop (snd (handle no_numeric_strings
                               (SortClicked "type" "Descending") initialWorld))))
     ("type", "Descending") = true <->
   sortOption (shop (snd (handle no_numeric_strings
                            (SortClicked "type" "Descending") initialWorld)))
   = SortObject "type" (-1)) /\
  (sort_is_set
     (sortOption (shop (snd (handle no_numeric_strings
                               (SortClicked "type" "Descending") initialWorld))))
   = false <->
   forall button,
     highlighted
       (activeSort (shop (snd (handle no_numeric_strings
                                 (SortClicked "type" "Descending") initialWorld))))
       button = false).
Proof.
  assert (H1 : ("type", "Descending") ∈ sort_buttons) by (repeat constructor).
  destruct (highlight_matches_sort no_numeric_strings _ reachable_after_sort_click)
    as (R1 & R2).
  split; [split; [exact reachable_after_sort_click|exact H1]|].
  split; [exact (R1 "type" "Descending" H1)|exact R2].
Defined.

Lemma skeleton_until_first_settle_while_typing :
  Forall (fun e => is_Settled e = false) [Typed "a"; Derived; ResetClicked] /\
  content (run_events no_numeric_strings [Typed "a"; Derived; ResetClicked]
             initialWorld) = inr (Skeletons 12).
Proof.
  assert (H1 : Forall (fun e => is_Settled e = false)
                 [Typed "a"; Derived; ResetClicked]) by (repeat constructor).
  split; [exact H1|].
  exact (proj2 (skeleton_until_first_settle no_numeric_strings
                  [Typed "a"; Derived; ResetClicked]) H1).
Defined.

Lemma sort_only_permutes_unpriced :
  (heap unpriced !! products (shop unpriced) = Some [∅; orange; ∅] /\
   truthy (filterOption (shop unpriced) !! "name") = false) /\
  exists (w' : world) (Q : list object),
    filterSortEffect no_numeric_strings unpriced = (inr tt, w') /\
    heap w' !! filteredProducts (shop w') = Some Q /\
    Q ≡ₚ [∅; orange; ∅].
Proof.
  assert (H1 : heap unpriced !! products (shop unpriced) = Some [∅; orange; ∅])
    by reflexivity.
  assert (H2 : truthy (filterOption (shop unpriced) !! "name") = false)
    by reflexivity.
  split; [by split|].
  exact (sort_only_permutes no_numeric_strings unpriced [∅; orange; ∅] H1 H2).
Defined.

Lemma filter_throws_on_nameless_record :
  heap nameless !! products (shop nameless) = Some [orange; ∅] /\
  let r := filterSortEffect no_numeric_strings nameless in
  (fst r = inr tt <->
   truthy (filterOption (shop nameless) !! "name") = false \/
   Forall has_name [orange; ∅]) /\
  (fst r = inr tt \/
   exists msg, fst r = inl (TypeError msg) /\
     filteredProducts (shop (snd r)) = filteredProducts (shop nameless) /\
     heap (snd r) !! products (shop (snd r)) = Some [orange; ∅]).
Proof.
  assert (H1 : heap nameless !! products (shop nameless) = Some [orange; ∅])
    by reflexivity.
  split; [exact H1|].
  exact (filter_throws_on_nameless no_numeric_strings nameless [orange; ∅] H1).
Defined.


Lemma derive_twice_on_shelf :
  heap (shelf (SortObject "name" 1) {[ "name" := "e" ]})
    !! products (shop (shelf (SortObject "name" 1) {[ "name" := "e" ]}))
  = Some catalogue /\
  displayed (filterSortEffect no_numeric_strings;;
             filterSortEffect no_numeric_strings)
    (shelf (SortObject "name" 1) {[ "name" := "e" ]})
  = displayed (filterSortEffect no_numeric_strings)
      (shelf (SortObject "name" 1) {[ "name" := "e" ]}).
Proof.
  assert (H1 : heap (shelf (SortObject "name" 1) {[ "name" := "e" ]})
                 !! products (shop (shelf (SortObject "name" 1)
                                      {[ "name" := "e" ]}))
               = Some catalogue) by reflexivity.
  split; [exact H1|].
  exact (derive_twice no_numeric_strings _ catalogue H1).
Defined.

Lemma other_filter_keys_ignored_on_shelf :
  (heap (shelf SortUndefined {[ "name" := "e" ]})
     !! products (shop (shelf SortUndefined {[ "name" := "e" ]}))
   = Some catalogue /\
   "type" <> "name") /\
  displayed (handleFilter "type" "Fruit";; filterSortEffect no_numeric_strings)
    (shelf SortUndefined {[ "name" := "e" ]})
  = displayed (filterSortEffect no_numeric_strings)
      (shelf SortUndefined {[ "name" := "e" ]}).
Proof.
  assert (H1 : heap (shelf SortUndefined {[ "name" := "e" ]})
                 !! products (shop (shelf SortUndefined {[ "name" := "e" ]}))
               = Some catalogue) by reflexivity.
  assert (H2 : "type" <> "name") by discriminate.
  split; [by split|].
  exact (other_filter_keys_ignored no_numeric_strings _ catalogue
           "type" "Fruit" H1 H2).
Defined.


Lemma empty_catalogue_after_failed_fetch :
  (heap (snd (fetchProducts None (Rejects "offline") initialWorld))
     !! products (shop (snd (fetchProducts None (Rejects "offline") initialWorld)))
   = Some [] /\
   loading (shop (snd (fetchProducts None (Rejects "offline") initialWorld)))
   = false) /\
  fst (filterSortEffect no_numeric_strings
         (snd (fetchProducts None (Rejects "offline") initialWorld))) = inr tt /\
  content (snd (filterSortEffect no_numeric_strings
                  (snd (fetchProducts None (Rejects "offline") initialWorld))))
  = inr NoProducts.
Proof.
  assert (H1 : heap (snd (fetchProducts None (Rejects "offline") initialWorld))
                 !! products (shop (snd (fetchProducts None (Rejects "offline")
                                           initialWorld)))
               = Some []) by reflexivity.
  assert (H2 : loading (shop (snd (fetchProducts None (Rejects "offline")
                                     initialWorld))) = false) by reflexivity.
  split; [by split|].
  exact (empty_catalogue_shows_no_products no_numeric_strings _ H1 H2).
Defined.

Lemma popup_after_two_adds_and_a_close :
  last (omap added [AddClicked rice; AddClicked apple; CloseClicked]) = Some apple /\
  let w := foldl popup_handle initialPopup
             [AddClicked rice; AddClicked apple; CloseClicked] in
  handed_to_cart w = [rice; apple] /\
  (showPopup (popup w) = true <->
   exists es' p, [AddClicked rice; AddClicked apple; CloseClicked]
                 = es' ++ [AddClicked p]) /\
  popupImage (popup w) = get apple "imageUrl" /\
  popupName (popup w) = get apple "name".
Proof.
  assert (H1 : last (omap added [AddClicked rice; AddClicked apple; CloseClicked])
               = Some apple) by reflexivity.
  destruct (popup_shows_last_added [AddClicked rice; AddClicked apple; CloseClicked])
    as (R1 & R2 & R3).
  split; [exact H1|]. split; [exact R1|]. split; [exact R2|exact (R3 apple H1)].
Defined.

Lemma sorted_all_pairs_on_catalogue :
  (heap (shelf (SortObject "name" (-1)) ∅)
     !! products (shop (shelf (SortObject "name" (-1)) ∅)) = Some catalogue /\
   Forall (fun p => is_Product p = true) catalogue /\
   "name" ∈ sort_keys /\
   sortOption (shop (shelf (SortObject "name" (-1)) ∅)) = SortObject "name" (-1)) /\
  exists Q : list object,
    displayed (filterSortEffect no_numeric_strings)
      (shelf (SortObject "name" (-1)) ∅) = inr Q /\
    forall (i j : nat) (a b : object),
      (i < j)%nat -> Q !! i = Some a -> Q !! j = Some b ->
      js_ge no_numeric_strings (get a "name") (get b "name") = true.
Proof.
  assert (H1 : heap (shelf (SortObject "name" (-1)) ∅)
                 !! products (shop (shelf (SortObject "name" (-1)) ∅))
               = Some catalogue) by reflexivity.
  assert (H2 : Forall (fun p => is_Product p = true) catalogue)
    by (repeat constructor).
  assert (H3 : "name" ∈ sort_keys) by (repeat constructor).
  assert (H4 : sortOption (shop (shelf (SortObject "name" (-1)) ∅))
               = SortObject "name" (-1)) by reflexivity.
  split; [by repeat split|].
  exact (sorted_all_pairs no_numeric_strings _ catalogue "name" false H1 H2 H3 H4).
Defined.

Lemma catalogue_prices_differ (a b : object) :
  a ∈ catalogue -> b ∈ catalogue ->
  a = b \/
  js_lt no_numeric_strings (get a "price") (get b "price") = true \/
  js_lt no_numeric_strings (get b "price") (get a "price") = true.
Proof.
  unfold catalogue. intros Ha Hb.
  repeat (apply elem_of_cons in Ha as [->|Ha]);
    try (by apply elem_of_nil in Ha);
    repeat (apply elem_of_cons in Hb as [->|Hb]);
    try (by apply elem_of_nil in Hb);
    first [ by left
          | right; left; vm_compute; reflexivity
          | right; right; vm_compute; reflexivity ].
Defined.

Lemma descending_reverses_ascending_on_catalogue :
  (heap (shelf SortUndefined ∅) !! products (shop (shelf SortUndefined ∅))
   = Some catalogue /\
   Forall (fun p => is_Product p = true) catalogue /\
   "price" ∈ sort_keys) /\
  exists up down : list object,
    displayed (handleSort "price" "Ascending";;
               filterSortEffect no_numeric_strings) (shelf SortUndefined ∅)
      = inr up /\
    displayed (handleSort "price" "Descending";;
               filterSortEffect no_numeric_strings) (shelf SortUndefined ∅)
      = inr down /\
    down = reverse up.
Proof.
  assert (H1 : heap (shelf SortUndefined ∅)
                 !! products (shop (shelf SortUndefined ∅)) = Some catalogue)
    by reflexivity.
  assert (H2 : Forall (fun p => is_Product p = true) catalogue)
    by (repeat constructor).
  assert (H3 : "price" ∈ sort_keys) by (repeat constructor).
  split; [by repeat split|].
  exact (descending_reverses_ascending no_numeric_strings _ catalogue "price"
           H1 H2 H3 catalogue_prices_differ).
Defined.
